(** * Sistema interactivo de optimización matemática: model of [codigo/solvers.py]

    The five calculator classes of [solvers.py] (LP, IP, NLP, MILP, MINLP) are
    embedded as Rocq functions.  Python strings are sequences of code points,
    dictionaries are finite maps, the Streamlit calls and the call to the
    backend solver are recorded as a trace of events, and Python exceptions
    are an explicit outcome.

    The modelling library is represented by what the code declares to it: an
    index set, parameter tables, variables with their domain, one objective
    and a list of constraints.  Of the library's own behaviour the model has
    what the calls of [solvers.py] run into:
    - [add_component] raises [RuntimeError] when the block already has a
      component of that name (a parameter called [i]);
    - assigning a component to an attribute that names a component replaces
      it (a parameter called [x], [objetivo] or [restricciones]; a MILP
      variable declared twice, or called [objetivo] or [restricciones]);
    - [ConstraintList.add] appends a relational expression built with [<=],
      [>=] or [==], raises [ValueError] on one built with [<] or [>] and on
      the Python [bool] that comparing two numbers gives; [!=] on an
      expression raises [PyomoException].
    Names that the library's block reserves for its own attributes, the
    simplifications the library applies to an expression (a product by the
    constant 0 or 1) and right-hand sides that are not finite are outside
    the model.  The builtins [float] and [eval] and the backend solvers are
    parameters (class [Externos]).

    The forms ([interfaz]) and the script [codigo/interfaz_de_usuario .py]
    run over a model of the Streamlit session (class [Sesion]): a widget
    returns the value the session holds for it, two widgets of one run may
    not have the same key, a select box returns one of its options and a
    number input at least its lower bound.  The calls that only display
    text (title, headings, expanders) are left out. *)

From Stdlib Require Import ZArith NArith List String Ascii Floats DecimalNat.
From stdpp Require Import base option list gmap sets.

Local Open Scope N_scope.

(** ** Python strings *)

(** A [str] is a sequence of Unicode code points. *)
Abbreviation str := (list N).

(** A literal written with ASCII characters only. *)
Definition lit (s : string) : str :=
  map N_of_ascii (list_ascii_of_string s).

(** [Py_UNICODE_ISSPACE]: the characters [str.strip()] removes. *)
Definition Py_UNICODE_ISSPACE (c : N) : bool :=
  ((9 <=? c) && (c <=? 13)) || ((28 <=? c) && (c <=? 32))
  || (c =? 133) || (c =? 160) || (c =? 5760)
  || ((8192 <=? c) && (c <=? 8202))
  || (c =? 8232) || (c =? 8233) || (c =? 8239) || (c =? 8287) || (c =? 12288).

(** The one-character strings "≤", "≥" and "≠". *)
Definition menor_o_igual : str := [8804].
Definition mayor_o_igual : str := [8805].
Definition distinto : str := [8800].

Definition espacio : N := 32.
Definition guion_bajo : N := 95.
Definition coma : N := 44.

(** [s.split(sep)] for a one-character separator. *)
Fixpoint split (sep : N) (s : str) : list str :=
  match s with
  | [] => [[]]
  | c :: s' =>
      if c =? sep then [] :: split sep s'
      else match split sep s' with
           | seg :: segs => (c :: seg) :: segs
           | [] => [[c]]
           end
  end.

Fixpoint lstrip (s : str) : str :=
  match s with
  | [] => []
  | c :: s' => if Py_UNICODE_ISSPACE c then lstrip s' else s
  end.

Definition rstrip (s : str) : str := reverse (lstrip (reverse s)).

(** [s.strip()] *)
Definition strip (s : str) : str := rstrip (lstrip s).

(** [s.replace(old, new)] for one-character [old] and [new]. *)
Definition replace (old new : N) (s : str) : str :=
  map (fun c => if c =? old then new else c) s.

(** Truth value of a string: non-empty. *)
Definition truthy (s : str) : bool :=
  match s with [] => false | _ => true end.

(** [parse_lista] (the same one-liner in the five classes):
    [[item.strip().replace(" ", "_") for item in texto.split(",") if item.strip()]] *)
Definition parse_lista (texto : str) : list str :=
  map (fun item => replace espacio guion_bajo (strip item))
      (List.filter (fun item => truthy (strip item)) (split coma texto)).


(** ** Numbers, exceptions and the symbolic expressions of the modelling library *)

(** A Python number: [int] or [float] (IEEE binary64). *)
Inductive numero :=
| Entero (z : Z)
| Flotante (x : float).

(** The exceptions that occur in the modelled code. *)
Inductive exn :=
| SyntaxError
| NameError (nombre : str)
| TypeError
| ZeroDivisionError
| OverflowError
| AttributeError (nombre : str)
| KeyError (clave : str)
| ApplicationError
| ValueError
| RuntimeError
| PyomoException
| SystemExit.

(** [isinstance(e, Exception)]: what [except Exception] catches.
    [SystemExit] derives from [BaseException] only. *)
Definition es_Exception (e : exn) : bool :=
  match e with
  | SystemExit => false
  | _ => true
  end.

Inductive outcome (A : Type) :=
| Ok (a : A)
| Raise (e : exn).
Arguments Ok {A} a.
Arguments Raise {A} e.

(** Expressions over decision variables, as the overloaded arithmetic of the
    modelling library builds them. *)
Inductive term :=
| TConst (n : numero)
| TVar (v : str)
| TNeg (a : term)
| TAbs (a : term)
| TAdd (a b : term)
| TSub (a b : term)
| TMul (a b : term)
| TDiv (a b : term)
| TPow (a b : term).

(** Variable domains used by the five classes. *)
Inductive dominio := NonNegativeReals | NonNegativeIntegers | Reals | Integers.


Inductive sentido := minimize | maximize.

(** The relational expression built by [<=], [>=], [==], [<], [>], [!=]. *)
Inductive relacion := Le | Ge | Eq | Lt | Gt | Ne.

(** A [ConcreteModel]: index set [i] and parameters (linear classes only),
    the declared variables with their domain, the objective and the
    [ConstraintList]. *)
Record model := Model {
  m_i : list str;
  m_params : gmap str (gmap str float);
  m_vars : gmap str dominio;
  m_objetivo : option (term * sentido);
  m_restricciones : list (term * relacion * float)
}.

(** What the code reads after [solver.solve(model)]: the two status fields
    (string-valued enumerations) and the values loaded into the model. *)
Record resultado := Resultado {
  status : str;
  termination_condition : str;
  valor_objetivo : float;
  valor_var : str -> float
}.

Definition SolverStatus_ok : str := lit "ok".
Definition TerminationCondition_optimal : str := lit "optimal".

(** ** Events: Streamlit output and backend invocations *)

(** The value of a constraint row as the form hands it over: text, or a
    number of the numeric widget. *)
Inductive valor_entrada :=
| Texto (s : str)
| Numero (x : float).

Inductive mensaje :=
| ParametroNoReconocido (n : nat) (parametro : str)
| OperadorNoValido (n : nat) (operador : str)
| ValorNoNumerico (n : nat) (valor : valor_entrada)
| ParametroIncompleto (nombre_param : str)
| ErrorObjetivo (e : exn)
| ErrorRestriccion (e : exn)
| SinSolucionOptima.

Inductive event :=
| st_error (m : mensaje)
| st_success
| st_markdown_objetivo (valor : float) (decimales : nat)
| st_write_valor (nombre : str) (valor : float) (decimales : nat)
| st_write_estado (s : str)
| st_write_terminacion (s : str)
| solve (solver : str) (m : model).

(** A run: how the call ended and what it emitted, in order. *)
Definition M (A : Type) : Type := outcome A * list event.

Definition ret {A} (a : A) : M A := (Ok a, []).
Definition raise {A} (e : exn) : M A := (Raise e, []).
Definition emit (ev : event) : M unit := (Ok tt, [ev]).
Definition bind {A B} (m : M A) (k : A -> M B) : M B :=
  match m with
  | (Ok a, t) => let '(r, t') := k a in (r, t ++ t')
  | (Raise e, t) => (Raise e, t)
  end.
Definition lift {A} (o : outcome A) : M A := (o, []).

Notation "'let*' x ':=' c 'in' k" := (bind c (fun x => k))
  (at level 10, x name, c at level 100, k at level 200).
Notation "c '>>' k" := (bind c (fun _ => k))
  (at level 90, right associativity).

Definition traza {A} (m : M A) : list event := snd m.
Definition final {A} (m : M A) : outcome A := fst m.

(** The backend invocations of a trace. *)
Definition llamadas (t : list event) : list (str * model) :=
  omap (fun ev => match ev with solve s m => Some (s, m) | _ => None end) t.

(** The error reports of a trace. *)
Definition errores (t : list event) : list mensaje :=
  omap (fun ev => match ev with st_error m => Some m | _ => None end) t.

(** The variable values displayed by a trace. *)
Definition valores_mostrados (t : list event) : list (str * float) :=
  omap (fun ev => match ev with st_write_valor v x _ => Some (v, x) | _ => None end) t.

(** ** What lies outside the repository *)

(** The Python builtins [float] and [eval], and the backend behind
    [SolverFactory(name).solve(model)]. *)
Class Externos := {
  (** [float(texto)]; [None] when it raises [ValueError]. *)
  py_float_str : str -> option float;
  (** [eval(fuente, {}, locales)], the result used as an expression. *)
  py_eval : str -> gmap str term -> outcome term;
  (** [solver.solve(model)] for the named solver. *)
  solver_solve : str -> model -> outcome resultado
}.

(** ** Pieces shared by the classes *)

(** The distinct members of a list in order of first occurrence: the order
    of an index set initialised from a list, and of the keys of a dict
    filled from it. *)
Fixpoint en_orden (l : list str) : list str :=
  match l with
  | [] => []
  | x :: l' => x :: List.filter (fun y => negb (bool_decide (y = x))) (en_orden l')
  end.

(** [{v: handle(v) for v in nombres}]: every name bound to its variable. *)
Definition ligadura (nombres : list str) : gmap str term :=
  foldl (fun d v => <[v := TVar v]> d) ∅ nombres.

(** [solver = SolverFactory(nombre); resultado = solver.solve(model)] *)
Definition resolver_con `{Externos} (nombre : str) (m : model) : M resultado :=
  emit (solve nombre m) >> lift (solver_solve nombre m).

(** [for v in nombres: st.write(f"{v} = {valor:.nf}")] *)
Definition escribir_valores (decimales : nat) (r : resultado) (nombres : list str) : M unit :=
  (Ok tt, map (fun v => st_write_valor v (valor_var r v) decimales) nombres).

(** The if/elif chain on the canonical operator; no branch, nothing added. *)
Definition comparar (op : str) : option relacion :=
  if bool_decide (op = lit "<=") then Some Le
  else if bool_decide (op = lit ">=") then Some Ge
  else if bool_decide (op = lit "==") then Some Eq
  else if bool_decide (op = lit "<") then Some Lt
  else if bool_decide (op = lit ">") then Some Gt
  else if bool_decide (op = lit "!=") then Some Ne
  else None.

(** Whether a value is one of Python's own numbers, not an expression of
    the modelling library. *)
Definition es_numero (t : term) : bool :=
  match t with
  | TConst _ => true
  | _ => false
  end.

(** [model.restricciones.add(lado_izq <op> valor)] under that chain.
    Comparing two numbers gives a [bool], which [add] refuses; on an
    expression, [<] and [>] build a strict inequality, which [add] refuses
    too, and [!=] raises while it is evaluated. *)
Definition agregar (cl : list (term * relacion * float)) (lado_izq : term)
    (op : str) (valor : float) : outcome (list (term * relacion * float)) :=
  match comparar op with
  | None => Ok cl
  | Some rel =>
      if es_numero lado_izq then Raise ValueError
      else
        match rel with
        | Le | Ge | Eq => Ok (cl ++ [(lado_izq, rel, valor)])
        | Lt | Gt => Raise ValueError
        | Ne => Raise PyomoException
        end
  end.

(** ** Classes LP and IP *)

Module Lineal.

(** [operadores_validos], the dict literal of [parse_restricciones]. *)
Definition operadores_validos : gmap str str :=
  list_to_map
    [ (menor_o_igual, lit "<="); (mayor_o_igual, lit ">="); (lit "=", lit "==");
      (lit "<", lit "<"); (lit ">", lit ">"); (distinto, lit "!=") ].

(** A row of [restricciones_input]. *)
Record fila := Fila {
  f_parametro : str;
  f_operador : str;
  f_valor : valor_entrada
}.

(** A structured constraint, as appended by [parse_restricciones]. *)
Record restriccion := Restriccion {
  parametro : str;
  operador : str;
  valor : float
}.

Record estado := Estado {
  elementos : list str;
  parametros : gmap str (gmap str float);
  restricciones : list restriccion;
  param_objetivo : str;
  tipo_objetivo : sentido
}.

Section clase.
Context `{Externos}.

(** [float(valor)]; [None] stands for [ValueError]. *)
Definition py_float (v : valor_entrada) : option float :=
  match v with
  | Texto s => py_float_str s
  | Numero x => Some x
  end.

(** One iteration of the loop of [parse_restricciones]; each [continue]
    leaves the list as it is. *)
Definition parse_paso (param_names : list str) (restricciones : list restriccion)
    (idx : nat) (restr : fila) : M (list restriccion) :=
  if bool_decide (f_parametro restr ∉ param_names) then
    emit (st_error (ParametroNoReconocido (idx + 1) (f_parametro restr))) >>
    ret restricciones
  else
    match operadores_validos !! f_operador restr with
    | None =>
        emit (st_error (OperadorNoValido (idx + 1) (f_operador restr))) >>
        ret restricciones
    | Some canonico =>
        match py_float (f_valor restr) with
        | None =>
            emit (st_error (ValorNoNumerico (idx + 1) (f_valor restr))) >>
            ret restricciones
        | Some v =>
            ret (restricciones ++ [Restriccion (f_parametro restr) canonico v])
        end
    end.

(** [for idx, restr in enumerate(restricciones_input)], from index [idx]. *)
Fixpoint parse_bucle (param_names : list str) (idx : nat) (entradas : list fila)
    (restricciones : list restriccion) : M (list restriccion) :=
  match entradas with
  | [] => ret restricciones
  | restr :: resto =>
      let* restricciones := parse_paso param_names restricciones idx restr in
      parse_bucle param_names (S idx) resto restricciones
  end.

Definition parse_restricciones (restricciones_input : list fila)
    (param_names : list str) : M (list restriccion) :=
  parse_bucle param_names 0 restricciones_input [].

(** [validar_parametros]: stops at the first parameter whose keys differ
    from the elements. *)
Fixpoint validar_parametros (self : estado) (param_names : list str) : M bool :=
  match param_names with
  | [] => ret true
  | nombre_param :: resto =>
      let valores := default ∅ (parametros self !! nombre_param) in
      if bool_decide (dom valores ≠ list_to_set (elementos self)) then
        emit (st_error (ParametroIncompleto nombre_param)) >> ret false
      else validar_parametros self resto
  end.

(** The components of the block that are no parameter table while the
    objective is built, and while the constraints are: the set [i]; then
    also the objective and the constraint list, which have replaced a
    parameter of their name. *)
Definition sin_tabla_objetivo : list str := [lit "i"].
Definition sin_tabla_restricciones : list str :=
  [lit "i"; lit "objetivo"; lit "restricciones"].

(** [getattr(model, pname)[i]], a factor of the sum.  [model.x] is the
    variable, also when a parameter was called [x]: the assignment of line
    86 replaced it.  A component of [sin_tabla] has no entry for an element,
    and the lookup raises; the model does not tell the classes of these
    exceptions apart and records [KeyError].  Any other name is a
    parameter table, or no attribute. *)
Definition factor (m : model) (sin_tabla : list str) (pname i : str) : outcome term :=
  if bool_decide (pname = lit "x") then Ok (TVar i)
  else if bool_decide (pname ∈ sin_tabla) then Raise (KeyError i)
  else
    match m_params m !! pname with
    | None => Raise (AttributeError pname)
    | Some tabla =>
        match tabla !! i with
        | None => Raise (KeyError i)
        | Some a => Ok (TConst (Flotante a))
        end
    end.

(** [sum(getattr(model, pname)[i] * model.x[i] for i in model.i)]: the
    attribute and the entry are looked up once per element, and the sum
    starts from the [int] 0. *)
Fixpoint sumar (m : model) (sin_tabla : list str) (pname : str)
    (acc : term) (indices : list str) : outcome term :=
  match indices with
  | [] => Ok acc
  | i :: resto =>
      match factor m sin_tabla pname i with
      | Raise e => Raise e
      | Ok a => sumar m sin_tabla pname (TAdd acc (TMul a (TVar i))) resto
      end
  end.

Definition suma_param_x (m : model) (sin_tabla : list str) (pname : str) : outcome term :=
  sumar m sin_tabla pname (TConst (Entero 0)) (m_i m).

(** The loop over [self.restricciones] that fills the [ConstraintList]; no
    [try] around it, so an exception of the sum or of [add] ends the
    loop and leaves [construir_modelo]. *)
Fixpoint definir_restricciones (m : model) (rs : list restriccion)
    (cl : list (term * relacion * float)) : outcome (list (term * relacion * float)) :=
  match rs with
  | [] => Ok cl
  | restr :: resto =>
      match suma_param_x m sin_tabla_restricciones (parametro restr) with
      | Raise e => Raise e
      | Ok expr =>
          match agregar cl expr (operador restr) (valor restr) with
          | Raise e => Raise e
          | Ok cl => definir_restricciones m resto cl
          end
      end
  end.

(** What the declarations create: the set, the parameters and the
    variable [x].  [m_params] keeps every parameter created, also one whose
    name a later assignment takes ([x], [objetivo], [restricciones]);
    [factor] has what the name then stands for. *)
Definition declaraciones (dominio_x : dominio) (self : estado) : model :=
  let i := en_orden (elementos self) in
  Model i (parametros self) (gset_to_gmap dominio_x (list_to_set i)) None [].

(** The declarations, lines 78 to 86.  The block has the component [i]
    when the parameters are added, and [add_component] refuses a second
    component of that name.  (A table with a key that is no element is
    outside the model: the form fills every table from the elements.) *)
Definition declarar (dominio_x : dominio) (self : estado) : outcome model :=
  if bool_decide (lit "i" ∈ dom (parametros self)) then Raise RuntimeError
  else Ok (declaraciones dominio_x self).

(** The status test written with string literals. *)
Definition es_optimo_texto (r : resultado) : bool :=
  bool_decide (status r = lit "ok") &&
  bool_decide (termination_condition r = lit "optimal").

Definition mostrar (m : model) (r : resultado) : M unit :=
  if es_optimo_texto r then
    emit st_success >>
    emit (st_markdown_objetivo (valor_objetivo r) 2) >>
    escribir_valores 2 r (m_i m)
  else emit (st_error SinSolucionOptima).

(** [construir_modelo] up to the call of the backend: declarations,
    objective and constraints.  Nothing is caught: the first exception
    leaves [construir_modelo]. *)
Definition armar (dominio_x : dominio) (self : estado) : M model :=
  let* m := lift (declarar dominio_x self) in
  let* expr_objetivo := lift (suma_param_x m sin_tabla_objetivo (param_objetivo self)) in
  let m := Model (m_i m) (m_params m) (m_vars m)
             (Some (expr_objetivo, tipo_objetivo self)) [] in
  let* cl := lift (definir_restricciones m (restricciones self) []) in
  ret (Model (m_i m) (m_params m) (m_vars m) (m_objetivo m) cl).

(** [construir_modelo], with the domain of [x] as the only difference
    between LP and IP. *)
Definition construir_modelo (dominio_x : dominio) (self : estado) : M unit :=
  let* m := armar dominio_x self in
  let* resultado := resolver_con (lit "glpk") m in
  mostrar m resultado.

(** The "Resolver" button of [interfaz]. *)
Definition resolver (dominio_x : dominio) (self : estado) (param_names : list str) : M unit :=
  let* valido := validar_parametros self param_names in
  if valido then construir_modelo dominio_x self else ret tt.

End clase.
End Lineal.

Module LP.
Definition construir_modelo `{Externos} := Lineal.construir_modelo NonNegativeReals.
Definition resolver `{Externos} := Lineal.resolver NonNegativeReals.
End LP.

Module IP.
Definition construir_modelo `{Externos} := Lineal.construir_modelo NonNegativeIntegers.
Definition resolver `{Externos} := Lineal.resolver NonNegativeIntegers.
End IP.

(** ** Classes NLP, MILP and MINLP *)

(** A constraint row of the expression classes: the form stores the
    operator already canonical. *)
Record fila_expr := FilaExpr {
  expresion : str;
  e_operador : str;
  e_valor : float
}.

Section expresiones.
Context `{Externos}.

(** The body of the [try] of one row: the expression is evaluated against
    the binding and the relational expression is added to the list. *)
Definition evaluar_fila (locales : gmap str term) (cl : list (term * relacion * float))
    (restr : fila_expr) : outcome (list (term * relacion * float)) :=
  match py_eval (expresion restr) locales with
  | Raise e => Raise e
  | Ok lado_izq => agregar cl lado_izq (e_operador restr) (e_valor restr)
  end.

(** The loop over [self.restricciones]: the first row that raises, in
    [eval] or in [add], ends the loop; the rows after it are not
    evaluated. *)
Fixpoint evaluar_restricciones (locales : gmap str term) (rs : list fila_expr)
    (cl : list (term * relacion * float)) : outcome (list (term * relacion * float)) :=
  match rs with
  | [] => Ok cl
  | restr :: resto =>
      match evaluar_fila locales cl restr with
      | Raise e => Raise e
      | Ok cl => evaluar_restricciones locales resto cl
      end
  end.

(** [except Exception as e: st.error(...); return]: an exception that is
    an [Exception] is reported and ends [construir_modelo] normally, with
    no model; any other goes on. *)
Definition capturar (informe : exn -> mensaje) (e : exn) : M (option model) :=
  if es_Exception e then emit (st_error (informe e)) >> ret None
  else raise e.

(** What follows the declarations in the three classes, up to the call of
    the backend: the objective and the constraints.  [m_vars] keeps every
    variable declared; in MILP, where each variable is an attribute of the
    block, the two assignments replace a variable called [objetivo] or
    [restricciones], and [MILP.en_el_modelo] has what the block then
    holds. *)
Definition armar_desde (m : model) (locales : gmap str term)
    (funcion_objetivo : str) (tipo_objetivo : sentido) (restricciones : list fila_expr)
    : M (option model) :=
  match py_eval funcion_objetivo locales with
  | Raise e => capturar ErrorObjetivo e
  | Ok expr_obj =>
      let m := Model (m_i m) (m_params m) (m_vars m)
                 (Some (expr_obj, tipo_objetivo)) [] in
      match evaluar_restricciones locales restricciones [] with
      | Raise e => capturar ErrorRestriccion e
      | Ok cl => ret (Some (Model (m_i m) (m_params m) (m_vars m) (m_objetivo m) cl))
      end
  end.

(** What follows the declarations in the three classes: objective,
    constraints, backend call, display. *)
Definition construir_desde (m : model) (locales : gmap str term)
    (funcion_objetivo : str) (tipo_objetivo : sentido) (restricciones : list fila_expr)
    (solver : str) (mostrar : model -> resultado -> M unit) : M unit :=
  let* armado := armar_desde m locales funcion_objetivo tipo_objetivo restricciones in
  match armado with
  | None => ret tt
  | Some m =>
      let* resultado := resolver_con solver m in
      mostrar m resultado
  end.

End expresiones.

Module NLP.

Record estado := Estado {
  variables : list str;
  funcion_objetivo : str;
  tipo_objetivo : sentido;
  restricciones : list fila_expr
}.

(** [model.vars = Var(self.variables, domain=Reals, initialize=1.0)] *)
Definition declarar (self : estado) : model :=
  Model [] ∅ (gset_to_gmap Reals (list_to_set (variables self))) None [].

Definition mostrar (self : estado) (m : model) (r : resultado) : M unit :=
  if Lineal.es_optimo_texto r then
    emit st_success >>
    emit (st_markdown_objetivo (valor_objetivo r) 4) >>
    escribir_valores 4 r (variables self)
  else emit (st_error SinSolucionOptima).

Definition construir_modelo `{Externos} (self : estado) : M unit :=
  construir_desde (declarar self) (ligadura (variables self))
    (funcion_objetivo self) (tipo_objetivo self) (restricciones self)
    (lit "ipopt") (mostrar self).

(** The "Resolver" button. *)
Definition resolver `{Externos} (self : estado) : M unit := construir_modelo self.

End NLP.

(** The state of MILP and of MINLP. *)
Record estado_mixto := EstadoMixto {
  variables_enteras : list str;
  variables_continuas : list str;
  mx_funcion_objetivo : str;
  mx_tipo_objetivo : sentido;
  mx_restricciones : list fila_expr
}.

Module MILP.

(** [setattr(model, v, Var(domain=Integers))] for the integer names, then
    [setattr(model, v, Var(domain=Reals))] for the continuous ones: a later
    assignment to the same attribute replaces the component. *)
Definition declarar (self : estado_mixto) : model :=
  let enteras := foldl (fun vs v => <[v := Integers]> vs) ∅ (variables_enteras self) in
  let todas := foldl (fun vs v => <[v := Reals]> vs) enteras (variables_continuas self) in
  Model [] ∅ todas None [].

(** The variables the block still holds when the backend is called: the
    assignments [model.objetivo = ...] (line 470) and
    [model.restricciones = ...] (line 475) replace a variable of that
    name. *)
Definition en_el_modelo (m : model) : gmap str dominio :=
  delete (lit "restricciones") (delete (lit "objetivo") (m_vars m)).

(** [all_vars]: its keys, in order. *)
Definition all_vars (self : estado_mixto) : list str :=
  en_orden (variables_enteras self ++ variables_continuas self).

(** The status test written with the enumeration members. *)
Definition es_optimo_enum (r : resultado) : bool :=
  bool_decide (status r = SolverStatus_ok) &&
  bool_decide (termination_condition r = TerminationCondition_optimal).

Definition mostrar (self : estado_mixto) (m : model) (r : resultado) : M unit :=
  if es_optimo_enum r then
    emit st_success >>
    emit (st_markdown_objetivo (valor_objetivo r) 4) >>
    escribir_valores 4 r (all_vars self)
  else
    emit (st_error SinSolucionOptima) >>
    emit (st_write_estado (status r)) >>
    emit (st_write_terminacion (termination_condition r)).

Definition construir_modelo `{Externos} (self : estado_mixto) : M unit :=
  construir_desde (declarar self)
    (ligadura (variables_enteras self ++ variables_continuas self))
    (mx_funcion_objetivo self) (mx_tipo_objetivo self) (mx_restricciones self)
    (lit "glpk") (mostrar self).

Definition resolver `{Externos} (self : estado_mixto) : M unit := construir_modelo self.

End MILP.

Module MINLP.

(** [model.vars = Var(todas_las_vars, domain=Reals)], then
    [model.vars[v].domain = Integers] for the integer names. *)
Definition declarar (self : estado_mixto) : model :=
  let todas_las_vars := variables_enteras self ++ variables_continuas self in
  let vars := gset_to_gmap Reals (list_to_set todas_las_vars) in
  Model [] ∅ (foldl (fun vs v => <[v := Integers]> vs) vars (variables_enteras self))
    None [].

(** The indices of [model.vars], in order. *)
Definition indices (self : estado_mixto) : list str :=
  en_orden (variables_enteras self ++ variables_continuas self).

Definition mostrar (self : estado_mixto) (m : model) (r : resultado) : M unit :=
  if Lineal.es_optimo_texto r then
    emit st_success >>
    emit (st_markdown_objetivo (valor_objetivo r) 4) >>
    escribir_valores 4 r (indices self)
  else emit (st_error SinSolucionOptima).

Definition construir_modelo `{Externos} (self : estado_mixto) : M unit :=
  construir_desde (declarar self) (ligadura (indices self))
    (mx_funcion_objetivo self) (mx_tipo_objetivo self) (mx_restricciones self)
    (lit "ipopt") (mostrar self).

Definition resolver `{Externos} (self : estado_mixto) : M unit := construir_modelo self.

End MINLP.

(** ** The menu of [interfaz_de_usuario.py] *)

Inductive ProblemClass := cLP | cIP | cNLP | cMILP | cMINLP.

(** A solve request: the class chosen in the menu with the state its form
    collected. *)
Inductive solicitud :=
| SolLP (self : Lineal.estado) (param_names : list str)
| SolIP (self : Lineal.estado) (param_names : list str)
| SolNLP (self : NLP.estado)
| SolMILP (self : estado_mixto)
| SolMINLP (self : estado_mixto).

Definition clase (s : solicitud) : ProblemClass :=
  match s with
  | SolLP _ _ => cLP
  | SolIP _ _ => cIP
  | SolNLP _ => cNLP
  | SolMILP _ => cMILP
  | SolMINLP _ => cMINLP
  end.

Definition resolver `{Externos} (s : solicitud) : M unit :=
  match s with
  | SolLP self param_names => LP.resolver self param_names
  | SolIP self param_names => IP.resolver self param_names
  | SolNLP self => NLP.resolver self
  | SolMILP self => MILP.resolver self
  | SolMINLP self => MINLP.resolver self
  end.

(** ** A model of [eval(fuente, {}, locales)] on arithmetic expressions

    The fragment covered: numeric literals, names, unary [+ -], binary
    [+ - * / **], parentheses, and calls of [abs] and [pow].  On text of
    the fragment the model gives the outcome of [eval]; on anything else it
    gives no answer.  Operations with a non-constant operand build the
    expression tree as written. *)

Module PyEval.

Inductive binop := Add | Sub | Mul | Div | Pow.

Inductive token :=
| KNum (texto : str)
| KName (id : str)
| KOp (op : binop)
| KLPar
| KRPar
| KComma.

#[warnings="-register-all"]
Inductive expr :=
| ENum (texto : str)
| EName (id : str)
| EPos (a : expr)
| ENeg (a : expr)
| EBin (op : binop) (a b : expr)
| ECall (f : expr) (args : list expr).

Definition es_digito (c : N) : bool := (48 <=? c) && (c <=? 57).
Definition es_inicio_id (c : N) : bool :=
  ((65 <=? c) && (c <=? 90)) || ((97 <=? c) && (c <=? 122)) || (c =? 95).
Definition es_parte_id (c : N) : bool := es_inicio_id c || es_digito c.

(** The longest prefix whose characters satisfy [p], and the rest. *)
Fixpoint tramo (p : N -> bool) (s : str) : str * str :=
  match s with
  | c :: s' => if p c then let '(a, b) := tramo p s' in (c :: a, b) else ([], s)
  | [] => ([], [])
  end.

(** A numeric literal at the head of [s]: digits, an optional fraction and
    an optional exponent. *)
Definition tramo_numero (s : str) : str * str :=
  let '(ent, r) := tramo es_digito s in
  let '(frac, r) :=
    match r with
    | 46 :: r' => let '(d, r'') := tramo es_digito r' in (46 :: d, r'')
    | _ => ([], r)
    end in
  let '(expo, r) :=
    match r with
    | e :: r' =>
        if (e =? 101) || (e =? 69) then
          let '(sg, r'') :=
            match r' with
            | c :: r'' => if (c =? 43) || (c =? 45) then ([c], r'') else ([], r')
            | [] => ([], r')
            end in
          let '(d, r''') := tramo es_digito r'' in
          match d with
          | [] => ([], r)
          | _ => (e :: sg ++ d, r''')
          end
        else ([], r)
    | [] => ([], r)
    end in
  (ent ++ frac ++ expo, r).

(** The words the grammar reserves; they are no names. *)
Definition palabras_reservadas : list str :=
  map lit
    [ "False"; "None"; "True"; "and"; "as"; "assert"; "async"; "await";
      "break"; "class"; "continue"; "def"; "del"; "elif"; "else"; "except";
      "finally"; "for"; "from"; "global"; "if"; "import"; "in"; "is";
      "lambda"; "nonlocal"; "not"; "or"; "pass"; "raise"; "return"; "try";
      "while"; "with"; "yield" ]%string.

(** Tokens of the fragment, blanks and tabs between them skipped; [None]
    on any other character and on a reserved word. *)
Fixpoint lex (fuel : nat) (s : str) : option (list token) :=
  match fuel with
  | O => None
  | S fuel =>
      match s with
      | [] => Some []
      | c :: s' =>
          if (c =? 32) || (c =? 9) then lex fuel s'
          else if es_digito c
                  || ((c =? 46) && match s' with d :: _ => es_digito d | [] => false end)
          then let '(n, r) := tramo_numero s in cons (KNum n) <$> lex fuel r
          else if es_inicio_id c
          then let '(id, r) := tramo es_parte_id s in
               if bool_decide (id ∈ palabras_reservadas) then None
               else cons (KName id) <$> lex fuel r
          else if c =? 43 then cons (KOp Add) <$> lex fuel s'
          else if c =? 45 then cons (KOp Sub) <$> lex fuel s'
          else if c =? 47 then cons (KOp Div) <$> lex fuel s'
          else if c =? 42 then
            match s' with
            | 42 :: s'' => cons (KOp Pow) <$> lex fuel s''
            | _ => cons (KOp Mul) <$> lex fuel s'
            end
          else if c =? 40 then cons KLPar <$> lex fuel s'
          else if c =? 41 then cons KRPar <$> lex fuel s'
          else if c =? 44 then cons KComma <$> lex fuel s'
          else None
      end
  end.

(** Recursive descent over the grammar
    [arith: term (('+'|'-') term)*], [term: factor (('*'|'/') factor)*],
    [factor: ('+'|'-') factor | power], [power: primary ['**' factor]],
    [primary: atom ('(' args ')')*], [atom: NUMBER | NAME | '(' arith ')']. *)
Fixpoint p_arith (n : nat) (ts : list token) : option (expr * list token) :=
  match n with
  | O => None
  | S n => '(a, r) ← p_term n ts; p_arith_resto n a r
  end
with p_arith_resto (n : nat) (a : expr) (ts : list token) : option (expr * list token) :=
  match n with
  | O => None
  | S n =>
      match ts with
      | KOp Add :: r => '(b, r') ← p_term n r; p_arith_resto n (EBin Add a b) r'
      | KOp Sub :: r => '(b, r') ← p_term n r; p_arith_resto n (EBin Sub a b) r'
      | _ => Some (a, ts)
      end
  end
with p_term (n : nat) (ts : list token) : option (expr * list token) :=
  match n with
  | O => None
  | S n => '(a, r) ← p_factor n ts; p_term_resto n a r
  end
with p_term_resto (n : nat) (a : expr) (ts : list token) : option (expr * list token) :=
  match n with
  | O => None
  | S n =>
      match ts with
      | KOp Mul :: r => '(b, r') ← p_factor n r; p_term_resto n (EBin Mul a b) r'
      | KOp Div :: r => '(b, r') ← p_factor n r; p_term_resto n (EBin Div a b) r'
      | _ => Some (a, ts)
      end
  end
with p_factor (n : nat) (ts : list token) : option (expr * list token) :=
  match n with
  | O => None
  | S n =>
      match ts with
      | KOp Add :: r => '(a, r') ← p_factor n r; Some (EPos a, r')
      | KOp Sub :: r => '(a, r') ← p_factor n r; Some (ENeg a, r')
      | _ =>
          '(a, r) ← p_primary n ts;
          match r with
          | KOp Pow :: r' => '(b, r'') ← p_factor n r'; Some (EBin Pow a b, r'')
          | _ => Some (a, r)
          end
      end
  end
with p_primary (n : nat) (ts : list token) : option (expr * list token) :=
  match n with
  | O => None
  | S n =>
      match ts with
      | KNum t :: r => p_llamadas n (ENum t) r
      | KName id :: r => p_llamadas n (EName id) r
      | KLPar :: r =>
          '(a, r') ← p_arith n r;
          match r' with
          | KRPar :: r'' => p_llamadas n a r''
          | _ => None
          end
      | _ => None
      end
  end
with p_llamadas (n : nat) (f : expr) (ts : list token) : option (expr * list token) :=
  match n with
  | O => None
  | S n =>
      match ts with
      | KLPar :: KRPar :: r => p_llamadas n (ECall f []) r
      | KLPar :: r =>
          '(args, r') ← p_args n r;
          match r' with
          | KRPar :: r'' => p_llamadas n (ECall f args) r''
          | _ => None
          end
      | _ => Some (f, ts)
      end
  end
with p_args (n : nat) (ts : list token) : option (list expr * list token) :=
  match n with
  | O => None
  | S n =>
      '(a, r) ← p_arith n ts;
      match r with
      | KComma :: r' => '(resto, r'') ← p_args n r'; Some (a :: resto, r'')
      | _ => Some ([a], r)
      end
  end.

(** [compile(fuente, "<string>", "eval")] on the fragment. *)
Definition parse (fuente : str) : option expr :=
  ts ← lex (S (length fuente)) fuente;
  '(e, r) ← p_arith (8 * S (length ts)) ts;
  match r with [] => Some e | _ => None end.

(** The objects an expression evaluates to: a number or an expression of
    the modelling library, or a function of the [builtins] module. *)
Inductive objeto :=
| OExpr (t : term)
| OBuiltin (nombre : str).

(** An answer of the model: an outcome, or nothing when the text leaves
    the fragment. *)
Definition respuesta (A : Type) : Type := option (outcome A).

Definition luego {A B} (r : respuesta A) (k : A -> respuesta B) : respuesta B :=
  match r with
  | Some (Ok a) => k a
  | Some (Raise e) => Some (Raise e)
  | None => None
  end.

Definition arbol (op : binop) (a b : term) : term :=
  match op with
  | Add => TAdd a b
  | Sub => TSub a b
  | Mul => TMul a b
  | Div => TDiv a b
  | Pow => TPow a b
  end.

Definition valor_digito (c : N) : Z := Z.of_N (c - 48).

(** The value of a run of decimal digits. *)
Definition entero_de (ds : str) : Z :=
  foldl (fun acc c => (10 * acc + valor_digito c)%Z) 0%Z ds.

Section evaluador.
(** [float] applied to the text of a literal. *)
Variable flotante_de_texto : str -> option float.
(** Python's arithmetic on two of its own numbers where a [float] or a
    division takes part. *)
Variable aritmetica_flotante : binop -> numero -> numero -> outcome numero.
(** Whether a name other than [abs] and [pow] is defined by the [builtins]
    module of the running interpreter. *)
Variable otros_builtins : str -> bool.

(** Membership in the [builtins] module. *)
Definition es_builtin (id : str) : bool :=
  bool_decide (id = lit "abs") || bool_decide (id = lit "pow") || otros_builtins id.

(** Name lookup of code run by [eval]: the local mapping, then the global
    one, then the [builtins] module, which [eval] makes reachable from a
    global mapping that has no [__builtins__] key. *)
Definition load_name (locales globales : gmap str objeto) (id : str) : outcome objeto :=
  match locales !! id with
  | Some o => Ok o
  | None =>
      match globales !! id with
      | Some o => Ok o
      | None => if es_builtin id then Ok (OBuiltin id) else Raise (NameError id)
      end
  end.

Definition aritmetica (op : binop) (x y : numero) : outcome numero :=
  match op, x, y with
  | Add, Entero a, Entero b => Ok (Entero (a + b))
  | Sub, Entero a, Entero b => Ok (Entero (a - b))
  | Mul, Entero a, Entero b => Ok (Entero (a * b))
  | Pow, Entero a, Entero b =>
      if (0 <=? b)%Z then Ok (Entero (a ^ b)) else aritmetica_flotante op x y
  | _, _, _ => aritmetica_flotante op x y
  end.

Definition es_cero (n : numero) : bool :=
  match n with
  | Entero z => (z =? 0)%Z
  | Flotante x => PrimFloat.eqb x 0
  end.

(** A binary operator: Python's own arithmetic on two numbers, a tree when
    an expression takes part (division by a constant zero left out),
    [TypeError] on a function. *)
Definition operar (op : binop) (a b : objeto) : respuesta objeto :=
  match a, b with
  | OExpr (TConst x), OExpr (TConst y) =>
      match aritmetica op x y with
      | Ok n => Some (Ok (OExpr (TConst n)))
      | Raise e => Some (Raise e)
      end
  | OExpr x, OExpr (TConst y) =>
      match op with
      | Div => if es_cero y then None else Some (Ok (OExpr (TDiv x (TConst y))))
      | _ => Some (Ok (OExpr (arbol op x (TConst y))))
      end
  | OExpr x, OExpr y => Some (Ok (OExpr (arbol op x y)))
  | _, _ => Some (Raise TypeError)
  end.

Definition negar (a : objeto) : outcome objeto :=
  match a with
  | OExpr (TConst (Entero z)) => Ok (OExpr (TConst (Entero (- z))))
  | OExpr (TConst (Flotante x)) => Ok (OExpr (TConst (Flotante (- x))))
  | OExpr t => Ok (OExpr (TNeg t))
  | OBuiltin _ => Raise TypeError
  end.

Definition positivo (a : objeto) : outcome objeto :=
  match a with
  | OExpr t => Ok (OExpr t)
  | OBuiltin _ => Raise TypeError
  end.

Definition absoluto (a : objeto) : outcome objeto :=
  match a with
  | OExpr (TConst (Entero z)) => Ok (OExpr (TConst (Entero (Z.abs z))))
  | OExpr (TConst (Flotante x)) => Ok (OExpr (TConst (Flotante (abs x))))
  | OExpr t => Ok (OExpr (TAbs t))
  | OBuiltin _ => Raise TypeError
  end.

(** Calls: [abs] of one argument and [pow] of two are covered. *)
Definition llamar (f : objeto) (args : list objeto) : respuesta objeto :=
  match f with
  | OBuiltin nombre =>
      if bool_decide (nombre = lit "abs") then
        match args with
        | [a] => Some (absoluto a)
        | _ => Some (Raise TypeError)
        end
      else if bool_decide (nombre = lit "pow") then
        match args with
        | [a; b] => operar Pow a b
        | _ => None
        end
      else None
  | OExpr _ => None
  end.

(** A literal: an [int] when it is a run of digits (a leading zero is
    accepted only in a run of zeros), else a [float]; no answer beyond the
    length the interpreter accepts for an [int]. *)
Definition literal (texto : str) : respuesta objeto :=
  if (4300 <? length texto)%nat then None
  else if forallb es_digito texto then
    match texto with
    | 48 :: _ :: _ =>
        if forallb (N.eqb 48) texto then Some (Ok (OExpr (TConst (Entero 0))))
        else Some (Raise SyntaxError)
    | _ => Some (Ok (OExpr (TConst (Entero (entero_de texto)))))
    end
  else
    match flotante_de_texto texto with
    | Some x => Some (Ok (OExpr (TConst (Flotante x))))
    | None => None
    end.

Fixpoint evaluar (locales globales : gmap str objeto) (e : expr) : respuesta objeto :=
  match e with
  | ENum texto => literal texto
  | EName id => Some (load_name locales globales id)
  | EPos a => luego (evaluar locales globales a) (fun x => Some (positivo x))
  | ENeg a => luego (evaluar locales globales a) (fun x => Some (negar x))
  | EBin op a b =>
      luego (evaluar locales globales a) (fun x =>
      luego (evaluar locales globales b) (fun y => operar op x y))
  | ECall f args =>
      luego (evaluar locales globales f) (fun fo =>
      let fix todos (l : list expr) : respuesta (list objeto) :=
        match l with
        | [] => Some (Ok [])
        | a :: l' =>
            luego (evaluar locales globales a) (fun x =>
            luego (todos l') (fun xs => Some (Ok (x :: xs))))
        end in
      luego (todos args) (fun xs => llamar fo xs))
  end.

(** [eval(fuente, {}, locales)] with its result taken as an expression: the
    global mapping passed is the empty dict. *)
Definition eval (fuente : str) (locales : gmap str term) : respuesta term :=
  match parse fuente with
  | None => None
  | Some e =>
      match evaluar (OExpr <$> locales) ∅ e with
      | Some (Ok (OExpr t)) => Some (Ok t)
      | Some (Ok (OBuiltin _)) => None
      | Some (Raise ex) => Some (Raise ex)
      | None => None
      end
  end.

End evaluador.

End PyEval.

(** The externals with [eval] given by the model above on the fragment it
    covers, and by [resto] elsewhere. *)
Definition python (flotante_de_texto : str -> option float)
    (aritmetica_flotante : PyEval.binop -> numero -> numero -> outcome numero)
    (otros_builtins : str -> bool)
    (resto : str -> gmap str term -> outcome term)
    (backend : str -> model -> outcome resultado) : Externos :=
  {| py_float_str := flotante_de_texto;
     py_eval := fun fuente locales =>
       default (resto fuente locales)
         (PyEval.eval flotante_de_texto aritmetica_flotante otros_builtins
            fuente locales);
     solver_solve := backend |}.

(** ** Stand-ins used to run the model on concrete inputs *)

Module Pruebas.

(** Reads a non-empty run of decimal digits; anything else is refused. *)
Definition flotante_de_digitos (s : str) : option float :=
  match s with
  | [] => None
  | _ =>
      if forallb PyEval.es_digito s
      then Some (of_uint63 (Uint63.of_Z (PyEval.entero_de s)))
      else None
  end.

(** No arithmetic between floating-point constants. *)
Definition sin_flotantes (op : PyEval.binop) (x y : numero) : outcome numero :=
  Raise TypeError.

(** A backend that reports an optimal solution with every value zero. *)
Definition backend_optimo (nombre : str) (m : model) : outcome resultado :=
  Ok (Resultado SolverStatus_ok TerminationCondition_optimal 0%float (fun _ => 0%float)).

(** No further builtin, and [SyntaxError] outside the fragment. *)
Definition sin_builtins (id : str) : bool := false.
Definition sin_resto (fuente : str) (locales : gmap str term) : outcome term :=
  Raise SyntaxError.

Definition externos : Externos :=
  python flotante_de_digitos sin_flotantes sin_builtins sin_resto backend_optimo.

End Pruebas.

(** ** The forms: Streamlit widgets *)

(** The widgets created without a key, told apart by their label. *)
Inductive rotulo :=
| TipoDeProblema
| NombresDeElementos
| NombresDeParametros
| ParametroObjetivo
| FuncionObjetivo
| CantidadDeRestricciones
| Resolver
| VariablesSeparadas
| ObjetivoEnTerminos
| VariablesEnteras
| VariablesContinuas
| IngreseObjetivo.

(** A widget is identified by its [key] when it has one. *)
Inductive widget :=
| Clave (key : str)
| Rotulo (r : rotulo).

#[global] Instance rotulo_eq_dec : EqDecision rotulo.
Proof. solve_decision. Defined.
#[global] Instance widget_eq_dec : EqDecision widget.
Proof. solve_decision. Defined.

(** The browser session: the current value of each widget, given what the
    script passes to it.  A number input never returns less than its
    [min_value]; a select box over a non-empty list returns one of its
    options.  Over an empty list it returns [None]: this happens only
    for the objective parameter of LP and IP without parameter names, where
    the first constraint row raises before the value is used. *)
Class Sesion := {
  (** [st.text_input(label, value=value, key=key)] *)
  valor_texto : widget -> str -> str;
  (** [st.number_input(label, value=value, key=key)] *)
  valor_numero : widget -> float -> float;
  (** [st.number_input(label, min_value=min_value, value=value, step=1, key=key)] *)
  valor_entero : widget -> nat -> nat -> nat;
  (** [st.selectbox(label, options, index=index, key=key)] *)
  valor_opcion : widget -> list str -> nat -> str;
  (** [st.button(label, key=key)] *)
  pulsado : widget -> bool;
  valor_entero_min :
    ∀ w min_value value, (min_value ≤ valor_entero w min_value value)%nat;
  valor_opcion_ofrecida :
    ∀ w options index, options ≠ [] -> valor_opcion w options index ∈ options
}.

(** How a run of the script can fail before it reaches its end. *)
Inductive fallo :=
| DuplicateWidgetID (key : str)
| StreamlitAPIException
| IndexError
| Excepcion (e : exn).

(** What a page shows: the events of the calculators, and the farewell
    line of the "Salir" button. *)
Inductive salida :=
| del_modelo (ev : event)
| st_write_has_salido (c : ProblemClass).

(** How a run ends: at the end of the script, with an exception, or at
    [st.stop()]. *)
Inductive desenlace (A : Type) :=
| Continua (a : A)
| Falla (e : fallo)
| Detenido.
Arguments Continua {A} a.
Arguments Falla {A} e.
Arguments Detenido {A}.

(** A piece of a script run: from the keys in use so far to how it ends,
    the keys in use afterwards and what it has shown. *)
Definition F (A : Type) : Type := gset str -> desenlace A * gset str * list salida.

Definition retF {A} (a : A) : F A := fun usadas => (Continua a, usadas, []).
Definition falla {A} (e : fallo) : F A := fun usadas => (Falla e, usadas, []).
Definition st_stop {A} : F A := fun usadas => (Detenido, usadas, []).
Definition mostrar_salida (s : salida) : F unit := fun usadas => (Continua tt, usadas, [s]).
Definition bindF {A B} (m : F A) (k : A -> F B) : F B :=
  fun usadas =>
    match m usadas with
    | (Continua a, usadas', t) =>
        let '(r, usadas'', t') := k a usadas' in (r, usadas'', t ++ t')
    | (Falla e, usadas', t) => (Falla e, usadas', t)
    | (Detenido, usadas', t) => (Detenido, usadas', t)
    end.

Notation "'let+' x ':=' c 'in' k" := (bindF c (fun x => k))
  (at level 10, x name, c at level 100, k at level 200).

(** How a run ended, and what it has shown. *)
Definition resultado_de {A} (r : desenlace A * gset str * list salida) : desenlace A :=
  r.1.1.
Definition mostrado {A} (r : desenlace A * gset str * list salida) : list salida :=
  r.2.

(** The events of the calculators among what a page has shown. *)
Definition eventos (t : list salida) : list event :=
  omap (fun s => match s with del_modelo ev => Some ev | _ => None end) t.

(** A method of one of the classes, run inside a page. *)
Definition del_nucleo {A} (m : M A) : F A :=
  fun usadas =>
    match m with
    | (Ok a, t) => (Continua a, usadas, del_modelo <$> t)
    | (Raise e, t) => (Falla (Excepcion e), usadas, del_modelo <$> t)
    end.

(** Two widgets of one run may not have the same key. *)
Definition registrar (w : widget) : F unit :=
  fun usadas =>
    match w with
    | Rotulo _ => (Continua tt, usadas, [])
    | Clave key =>
        if bool_decide (key ∈ usadas) then (Falla (DuplicateWidgetID key), usadas, [])
        else (Continua tt, {[key]} ∪ usadas, [])
    end.

(** [l[i]] *)
Definition indexar {A} (l : list A) (i : nat) : F A :=
  match l !! i with
  | Some x => retF x
  | None => falla IndexError
  end.

(** [l.index(x)]: the first position of [x]. *)
Definition py_index (x : str) (l : list str) : option nat :=
  fst <$> list_find (fun y => y = x) l.

(** [l.index(x) if x in l else 0] *)
Definition index_o_cero (x : str) (l : list str) : nat := default 0%nat (py_index x l).

(** [str(n)] for a non-negative [int]. *)
Fixpoint cifras (d : Decimal.uint) : str :=
  match d with
  | Decimal.Nil => []
  | Decimal.D0 d => 48 :: cifras d
  | Decimal.D1 d => 49 :: cifras d
  | Decimal.D2 d => 50 :: cifras d
  | Decimal.D3 d => 51 :: cifras d
  | Decimal.D4 d => 52 :: cifras d
  | Decimal.D5 d => 53 :: cifras d
  | Decimal.D6 d => 54 :: cifras d
  | Decimal.D7 d => 55 :: cifras d
  | Decimal.D8 d => 56 :: cifras d
  | Decimal.D9 d => 57 :: cifras d
  end.
Definition py_str (n : nat) : str := cifras (Nat.to_uint n).

(** The list [operadores] of the five forms, and the two options of the
    select box of the sense. *)
Definition operadores : list str :=
  [menor_o_igual; mayor_o_igual; lit "="; lit "<"; lit ">"; distinto].
Definition sentidos : list str := [lit "Maximizar"; lit "Minimizar"].

(** [maximize if objetivo_input == "Maximizar" else minimize] *)
Definition sentido_de_opcion (objetivo_input : str) : sentido :=
  if bool_decide (objetivo_input = lit "Maximizar") then maximize else minimize.

Section widgets.
Context `{Sesion}.

Definition st_text_input (w : widget) (value : str) : F str :=
  let+ _ := registrar w in retF (valor_texto w value).

Definition st_number_input (w : widget) (value : float) : F float :=
  let+ _ := registrar w in retF (valor_numero w value).

Definition st_number_input_int (w : widget) (min_value value : nat) : F nat :=
  let+ _ := registrar w in retF (valor_entero w min_value value).

(** An index outside a non-empty list of options is refused. *)
Definition st_selectbox (w : widget) (options : list str) (index : nat) : F str :=
  if bool_decide (options ≠ [] ∧ (length options ≤ index)%nat)
  then falla StreamlitAPIException
  else let+ _ := registrar w in retF (valor_opcion w options index).

Definition st_button (w : widget) : F bool :=
  let+ _ := registrar w in retF (pulsado w).

(** [for idx in range(int(num_restr)): ... restricciones_input.append(fila)] *)
Fixpoint filas_de {A} (fila : nat -> F A) (indices : list nat)
    (restricciones_input : list A) : F (list A) :=
  match indices with
  | [] => retF restricciones_input
  | idx :: resto =>
      let+ f := fila idx in
      filas_de fila resto (restricciones_input ++ [f])
  end.

End widgets.

(** ** The forms of LP and IP *)

(** What differs between [LP.interfaz] and [IP.interfaz]: the preloaded
    example, the keys of the widgets, and the class. *)
Record variante := Variante {
  v_solicitud : Lineal.estado -> list str -> solicitud;
  elementos_default : str;
  parametros_default : str;
  param_values_default : gmap str (gmap str float);
  restricciones_default : list (str * str * float);
  prefijo : str;
  w_param_objetivo : widget;
  w_tipo : widget;
  w_num_restr : widget;
  num_restr_default : nat;
  w_resolver : widget;
  w_salir : widget
}.

Section formularios.
Context `{Externos} `{Sesion}.

(** The inner loop of the parameter table: one keyed number input per
    element, keyed [f"{pname}_{el}"] after the prefix of the class. *)
Fixpoint poblar_elementos (v : variante) (pname : str) (elementos : list str)
    (valores : gmap str float) : F (gmap str float) :=
  match elementos with
  | [] => retF valores
  | el :: resto =>
      let default_val :=
        default 1%float (default ∅ (param_values_default v !! pname) !! el) in
      let+ val := st_number_input (Clave (prefijo v ++ pname ++ lit "_" ++ el))
                    default_val in
      poblar_elementos v pname resto (<[el := val]> valores)
  end.

(** [for pname in param_names: self.parametros[pname] = {}; ...] *)
Fixpoint poblar (v : variante) (elementos param_names : list str)
    (parametros : gmap str (gmap str float)) : F (gmap str (gmap str float)) :=
  match param_names with
  | [] => retF parametros
  | pname :: resto =>
      let+ valores := poblar_elementos v pname elementos ∅ in
      poblar v elementos resto (<[pname := valores]> parametros)
  end.

(** One constraint row of the form. *)
Definition fila_lineal (v : variante) (param_names : list str) (idx : nat) : F Lineal.fila :=
  let por_defecto := restricciones_default v !! idx in
  let+ def_param :=
    match por_defecto with
    | Some (p, _, _) =>
        if bool_decide (p ∈ param_names) then retF p else indexar param_names 0
    | None => indexar param_names 0
    end in
  let+ def_op :=
    match por_defecto with
    | Some (_, op, _) => retF op
    | None => indexar operadores 0
    end in
  let def_val :=
    match por_defecto with
    | Some (_, _, x) => x
    | None => 10%float
    end in
  let+ parametro :=
    st_selectbox (Clave (prefijo v ++ lit "param_" ++ py_str idx)) param_names
      (index_o_cero def_param param_names) in
  let+ operador :=
    st_selectbox (Clave (prefijo v ++ lit "op_" ++ py_str idx)) operadores
      (index_o_cero def_op operadores) in
  let+ valor :=
    st_number_input (Clave (prefijo v ++ lit "valor_" ++ py_str idx)) def_val in
  retF (Lineal.Fila parametro operador (Numero valor)).

(** [interfaz] up to the two buttons: the state the form collects.  The
    instance is fresh, so [self.parametros] starts empty. *)
Definition formulario_lineal (v : variante) : F solicitud :=
  let+ elementos_input := st_text_input (Rotulo NombresDeElementos) (elementos_default v) in
  let elementos := parse_lista elementos_input in
  let+ parametros_input := st_text_input (Rotulo NombresDeParametros) (parametros_default v) in
  let param_names := parse_lista parametros_input in
  let+ parametros := poblar v elementos param_names ∅ in
  let+ param_objetivo := st_selectbox (w_param_objetivo v) param_names 0 in
  let+ objetivo_input := st_selectbox (w_tipo v) sentidos 0 in
  let tipo_objetivo := sentido_de_opcion objetivo_input in
  let+ num_restr := st_number_input_int (w_num_restr v) 1 (num_restr_default v) in
  let+ restricciones_input := filas_de (fila_lineal v param_names) (seq 0 num_restr) [] in
  let+ restricciones :=
    del_nucleo (Lineal.parse_restricciones restricciones_input param_names) in
  retF (v_solicitud v
          (Lineal.Estado elementos parametros restricciones param_objetivo tipo_objetivo)
          param_names).

(** The two buttons that end every form. *)
Definition botones (s : solicitud) (w_resolver w_salir : widget) : F unit :=
  let+ resolver_pulsado := st_button w_resolver in
  let+ _ := if resolver_pulsado then del_nucleo (resolver s) else retF tt in
  let+ salir_pulsado := st_button w_salir in
  if salir_pulsado then
    let+ _ := mostrar_salida (st_write_has_salido (clase s)) in st_stop
  else retF tt.

Definition interfaz_lineal (v : variante) : F unit :=
  let+ s := formulario_lineal v in
  botones s (w_resolver v) (w_salir v).

(** ** The forms of NLP, MILP and MINLP *)

(** [{"≤": "<=", ...}[op]] *)
Definition canonico_de (op : str) : F str :=
  match Lineal.operadores_validos !! op with
  | Some canonico => retF canonico
  | None => falla (Excepcion (KeyError op))
  end.

(** One constraint row of an expression form; [index] is the argument of
    the select box, computed when the select box is reached. *)
Definition fila_expresion (prefijo : str) (def_expr : str) (index : F nat)
    (def_val : float) (i : nat) : F fila_expr :=
  let+ expr := st_text_input (Clave (prefijo ++ lit "expr_" ++ py_str i)) def_expr in
  let+ index := index in
  let+ op := st_selectbox (Clave (prefijo ++ lit "op_" ++ py_str i)) operadores index in
  let+ val := st_number_input (Clave (prefijo ++ lit "val_" ++ py_str i)) def_val in
  let+ canonico := canonico_de op in
  retF (FilaExpr expr canonico val).

Definition fila_NLP (i : nat) : F fila_expr :=
  fila_expresion (lit "nlp_") (lit "x1**2 + 1.5*x2**2") (retF 0%nat) 500%float i.

Definition formulario_NLP : F solicitud :=
  let+ vars_input := st_text_input (Rotulo VariablesSeparadas) (lit "x1, x2") in
  let variables := parse_lista vars_input in
  let+ funcion_objetivo :=
    st_text_input (Rotulo ObjetivoEnTerminos)
      (lit "80*x1 + 120*x2 - 3*x1**2 - 2*x2**2 - 0.8*x1*x2") in
  let+ objetivo_input := st_selectbox (Clave (lit "nlp_tipo")) sentidos 0 in
  let tipo_objetivo := sentido_de_opcion objetivo_input in
  let+ num_restr := st_number_input_int (Clave (lit "nlp_num_restr")) 0 1 in
  let+ restricciones_input := filas_de fila_NLP (seq 0 num_restr) [] in
  retF (SolNLP (NLP.Estado variables funcion_objetivo tipo_objetivo restricciones_input)).

Definition interfaz_NLP : F unit :=
  let+ s := formulario_NLP in
  botones s (Clave (lit "nlp_resolver")) (Clave (lit "nlp_salir")).

(** The preloaded example of the MILP form; its operators are written in
    canonical form. *)
Definition restricciones_default_MILP : list (str * str * float) :=
  [ (lit "x + y", lit "<=", 10%float);
    (lit "y + z", lit ">=", 5%float);
    (lit "x", lit ">=", 20%float);
    (lit "y", lit ">=", 11%float);
    (lit "z", lit "<=", 100%float) ].

Definition fila_MILP (i : nat) : F fila_expr :=
  let por_defecto := restricciones_default_MILP !! i in
  let def_expr :=
    match por_defecto with Some (e, _, _) => e | None => lit "x + y" end in
  let+ def_op :=
    match por_defecto with
    | Some (_, op, _) => retF op
    | None => indexar operadores 0
    end in
  let def_val :=
    match por_defecto with Some (_, _, x) => x | None => 10%float end in
  fila_expresion (lit "milp_") def_expr (retF (index_o_cero def_op operadores)) def_val i.

Definition formulario_MILP : F solicitud :=
  let+ enteras_input := st_text_input (Rotulo VariablesEnteras) (lit "x") in
  let+ continuas_input := st_text_input (Rotulo VariablesContinuas) (lit "y, z") in
  let variables_enteras := parse_lista enteras_input in
  let variables_continuas := parse_lista continuas_input in
  let+ funcion_objetivo := st_text_input (Rotulo IngreseObjetivo) (lit "x + 2*y + 3*z") in
  let+ objetivo_input := st_selectbox (Clave (lit "milp_tipo")) sentidos 0 in
  let tipo_objetivo := sentido_de_opcion objetivo_input in
  let+ num_restr :=
    st_number_input_int (Clave (lit "milp_num_restr")) 0
      (length restricciones_default_MILP) in
  let+ restricciones_input := filas_de fila_MILP (seq 0 num_restr) [] in
  retF (SolMILP (EstadoMixto variables_enteras variables_continuas funcion_objetivo
                   tipo_objetivo restricciones_input)).

Definition interfaz_MILP : F unit :=
  let+ s := formulario_MILP in
  botones s (Clave (lit "milp_resolver")) (Clave (lit "milp_salir")).

(** [valores_defecto] of the MINLP form. *)
Definition valores_defecto : list (str * str * float) :=
  [ (lit "x + y + z", menor_o_igual, 10%float);
    (lit "x**2 + y", mayor_o_igual, 2%float);
    (lit "y + z**2", menor_o_igual, 8%float);
    (lit "x", mayor_o_igual, 0%float);
    (lit "y", mayor_o_igual, 0%float) ].

Definition fila_MINLP (i : nat) : F fila_expr :=
  let '(expr_default, op_default, val_default) :=
    default ([], menor_o_igual, 0%float) (valores_defecto !! i) in
  fila_expresion (lit "minlp_") expr_default
    (match py_index op_default operadores with
     | Some n => retF n
     | None => falla (Excepcion ValueError)
     end)
    val_default i.

Definition formulario_MINLP : F solicitud :=
  let+ enteras_input := st_text_input (Rotulo VariablesEnteras) (lit "x") in
  let+ continuas_input := st_text_input (Rotulo VariablesContinuas) (lit "y, z") in
  let variables_enteras := parse_lista enteras_input in
  let variables_continuas := parse_lista continuas_input in
  let+ funcion_objetivo :=
    st_text_input (Rotulo IngreseObjetivo) (lit "x**2 + 2*y**2 + 3*z + x*y") in
  let+ objetivo_input := st_selectbox (Clave (lit "minlp_tipo")) sentidos 0 in
  let tipo_objetivo :=
    if bool_decide (objetivo_input = lit "Minimizar") then minimize else maximize in
  let+ num_restr := st_number_input_int (Clave (lit "minlp_num_restr")) 0 5 in
  let+ restricciones_input := filas_de fila_MINLP (seq 0 num_restr) [] in
  retF (SolMINLP (EstadoMixto variables_enteras variables_continuas funcion_objetivo
                    tipo_objetivo restricciones_input)).

Definition interfaz_MINLP : F unit :=
  let+ s := formulario_MINLP in
  botones s (Clave (lit "minlp_resolver")) (Clave (lit "minlp_salir")).

End formularios.

(** The two linear forms. *)
Definition variante_LP : variante :=
  let tabla (d t c : float) : gmap str float :=
    {[ lit "Desk" := d; lit "Table" := t; lit "Chairs" := c ]} in
  {| v_solicitud := SolLP;
     elementos_default := lit "Desk, Table, Chairs";
     parametros_default := lit "L, F, C, P";
     param_values_default :=
       {[ lit "L" := tabla 8%float 6%float 1%float;
          lit "F" := tabla 4%float 2%float 1.5%float;
          lit "C" := tabla 2%float 1.5%float 0.5%float;
          lit "P" := tabla 60%float 30%float 20%float ]};
     restricciones_default :=
       [ (lit "L", menor_o_igual, 48%float);
         (lit "F", menor_o_igual, 20%float);
         (lit "C", menor_o_igual, 8%float) ];
     prefijo := [];
     w_param_objetivo := Rotulo ParametroObjetivo;
     w_tipo := Rotulo FuncionObjetivo;
     w_num_restr := Rotulo CantidadDeRestricciones;
     num_restr_default := 3;
     w_resolver := Rotulo Resolver;
     w_salir := Clave (lit "salir_boton_1") |}.

Definition variante_IP : variante :=
  let restricciones_default :=
    [ (lit "Tiempo", menor_o_igual, 16%float);
      (lit "Ganancia", mayor_o_igual, 40%float) ] in
  {| v_solicitud := SolIP;
     elementos_default := lit "Caja1, Caja2";
     parametros_default := lit "Ganancia, Tiempo";
     param_values_default :=
       {[ lit "Ganancia" := {[ lit "Caja1" := 20%float; lit "Caja2" := 30%float ]};
          lit "Tiempo" := {[ lit "Caja1" := 4%float; lit "Caja2" := 6%float ]} ]};
     restricciones_default := restricciones_default;
     prefijo := lit "ip_";
     w_param_objetivo := Clave (lit "ip_obj");
     w_tipo := Clave (lit "ip_tipo");
     w_num_restr := Clave (lit "ip_restr_count");
     num_restr_default := length restricciones_default;
     w_resolver := Clave (lit "ip_resolver");
     w_salir := Clave (lit "ip_salir") |}.

(** ** The script [interfaz_de_usuario.py] *)

(** "Programación", with its accented letter. *)
Definition programacion : str := lit "Programaci" ++ [243] ++ lit "n".

Definition opciones : list str :=
  [ lit "Ninguno";
    programacion ++ lit " Lineal (LP)";
    programacion ++ lit " Entera (IP)";
    programacion ++ lit " No Lineal (NLP)";
    programacion ++ lit " Entera Mixta (MILP)";
    programacion ++ lit " No Lineal Mixta (MINLP)" ].

(** One run of the script: the menu, then the form of the chosen class on
    a fresh instance. *)
Definition interfaz_de_usuario `{Externos} `{Sesion} : F unit :=
  let+ opcion := st_selectbox (Rotulo TipoDeProblema) opciones 0 in
  if bool_decide (opcion = programacion ++ lit " Lineal (LP)") then
    interfaz_lineal variante_LP
  else if bool_decide (opcion = programacion ++ lit " Entera (IP)") then
    interfaz_lineal variante_IP
  else if bool_decide (opcion = programacion ++ lit " No Lineal (NLP)") then
    interfaz_NLP
  else if bool_decide (opcion = programacion ++ lit " Entera Mixta (MILP)") then
    interfaz_MILP
  else if bool_decide (opcion = programacion ++ lit " No Lineal Mixta (MINLP)") then
    interfaz_MINLP
  else retF tt.

(** ** Stand-ins used to run the forms on concrete inputs *)

Module SesionDePrueba.

(** Every widget at the value the script gives it, except the texts in
    [textos] and the buttons in [botones]. *)
Definition opcion_inicial (w : widget) (options : list str) (index : nat) : str :=
  default (default [] (head options)) (options !! index).

Lemma opcion_inicial_ofrecida (w : widget) (options : list str) (index : nat) :
  options ≠ [] -> opcion_inicial w options index ∈ options.
Proof.
  unfold opcion_inicial. intros Hne.
  destruct (options !! index) as [x|] eqn:E; simpl.
  - by eapply list_elem_of_lookup_2.
  - destruct options as [|o os]; [done|]. simpl. by left.
Qed.

Definition sesion (textos : rotulo -> option str) (botones : list widget) : Sesion :=
  {| valor_texto := fun w value =>
       match w with
       | Rotulo r => default value (textos r)
       | Clave _ => value
       end;
     valor_numero := fun _ value => value;
     valor_entero := fun _ min_value value => Nat.max min_value value;
     valor_opcion := opcion_inicial;
     pulsado := fun w => bool_decide (w ∈ botones);
     valor_entero_min := fun _ min_value value => Nat.le_max_l min_value value;
     valor_opcion_ofrecida := opcion_inicial_ofrecida |}.

(** Every widget as it comes up, and no button pressed. *)
Definition inicial : Sesion := sesion (fun _ => None) [].

(** A backend that cannot be run. *)
Definition externos_sin_backend : Externos :=
  python Pruebas.flotante_de_digitos Pruebas.sin_flotantes Pruebas.sin_builtins
    Pruebas.sin_resto (fun _ _ => Raise ApplicationError).

End SesionDePrueba.

(** * Properties *)

(** ** Definitions used to state the properties *)

(** One comma-separated segment as the parser treats it: trimmed, dropped
    when nothing is left, spaces replaced by underscores. *)
Definition segmento (item : str) : option str :=
  if truthy (strip item) then Some (replace espacio guion_bajo (strip item)) else None.

(** An emitted identifier: not empty, without any space character, and with
    no whitespace at either end. *)
Definition limpio (id : str) : Prop :=
  id ≠ [] ∧ (espacio ∉ id)
  ∧ (∀ c, head id = Some c → Py_UNICODE_ISSPACE c = false)
  ∧ (∀ c, last id = Some c → Py_UNICODE_ISSPACE c = false).

(** No whitespace of any kind inside. *)
Definition sin_blancos (id : str) : bool :=
  forallb (fun c => negb (Py_UNICODE_ISSPACE c)) id.

(** The six symbols the form offers ([operadores] in [interfaz]) and the
    six canonical tags. *)
Definition simbolos : list str :=
  [menor_o_igual; mayor_o_igual; lit "="; lit "<"; lit ">"; distinto].
Definition canonicos : list str :=
  [lit "<="; lit ">="; lit "=="; lit "<"; lit ">"; lit "!="].

Section filas.
Context `{Externos}.

(** A valid linear-mode row: declared parameter, one of the six symbols,
    and a value that [float] accepts. *)
Definition fila_valida (param_names : list str) (restr : Lineal.fila) : Prop :=
  Lineal.f_parametro restr ∈ param_names
  ∧ Lineal.f_operador restr ∈ simbolos
  ∧ is_Some (Lineal.py_float (Lineal.f_valor restr)).

(** The structured constraint of a valid row: same parameter, canonical
    operator, coerced value. *)
Definition normalizar (param_names : list str) (restr : Lineal.fila) : option Lineal.restriccion :=
  if bool_decide (Lineal.f_parametro restr ∈ param_names) then
    canonico ← Lineal.operadores_validos !! Lineal.f_operador restr;
    v ← Lineal.py_float (Lineal.f_valor restr);
    Some (Lineal.Restriccion (Lineal.f_parametro restr) canonico v)
  else None.

(** The report for the row at 0-based position [idx], if it is not valid:
    the first check that fails, with the 1-based row number. *)
Definition diagnostico (param_names : list str) (idx : nat) (restr : Lineal.fila) : option mensaje :=
  if bool_decide (Lineal.f_parametro restr ∈ param_names) then
    match Lineal.operadores_validos !! Lineal.f_operador restr with
    | None => Some (OperadorNoValido (idx + 1) (Lineal.f_operador restr))
    | Some _ =>
        match Lineal.py_float (Lineal.f_valor restr) with
        | None => Some (ValorNoNumerico (idx + 1) (Lineal.f_valor restr))
        | Some _ => None
        end
    end
  else Some (ParametroNoReconocido (idx + 1) (Lineal.f_parametro restr)).

(** The reports of a batch whose first row has position [idx]. *)
Fixpoint diagnosticos (param_names : list str) (idx : nat) (entradas : list Lineal.fila) : list mensaje :=
  match entradas with
  | [] => []
  | restr :: resto =>
      option_list (diagnostico param_names idx restr)
      ++ diagnosticos param_names (S idx) resto
  end.

End filas.

(** A declared parameter whose populated elements are not exactly the
    declared elements. *)
Definition incompleto (self : Lineal.estado) (nombre_param : str) : Prop :=
  dom (default ∅ (Lineal.parametros self !! nombre_param))
  ≠ list_to_set (Lineal.elementos self).

(** The tags of the if/elif chain whose test succeeds on [op]. *)
Definition ramas (op : str) : list str :=
  List.filter (fun c => bool_decide (op = c)) canonicos.

(** The backend of each problem class, and the family of each backend. *)
Definition backend (c : ProblemClass) : str :=
  match c with
  | cLP | cIP | cMILP => lit "glpk"
  | cNLP | cMINLP => lit "ipopt"
  end.

Inductive familia := EnteroMixtoLineal | NoLineal.

Definition familia_de (solver : str) : option familia :=
  if bool_decide (solver = lit "glpk") then Some EnteroMixtoLineal
  else if bool_decide (solver = lit "ipopt") then Some NoLineal
  else None.

(** The model of a request right after its declarations, when they go
    through. *)
Definition declarado (s : solicitud) : model :=
  match s with
  | SolLP self _ => Lineal.declaraciones NonNegativeReals self
  | SolIP self _ => Lineal.declaraciones NonNegativeIntegers self
  | SolNLP self => NLP.declarar self
  | SolMILP self => MILP.declarar self
  | SolMINLP self => MINLP.declarar self
  end.

(** The declarations of a request: those of LP and IP can raise. *)
Definition declaracion (s : solicitud) : outcome model :=
  match s with
  | SolLP self _ => Lineal.declarar NonNegativeReals self
  | SolIP self _ => Lineal.declarar NonNegativeIntegers self
  | SolNLP self => Ok (NLP.declarar self)
  | SolMILP self => Ok (MILP.declarar self)
  | SolMINLP self => Ok (MINLP.declarar self)
  end.

(** The result interpreter of each class: the tail of [construir_modelo]. *)
Definition interpretar (s : solicitud) : model → resultado → M unit :=
  match s with
  | SolLP _ _ | SolIP _ _ => Lineal.mostrar
  | SolNLP self => NLP.mostrar self
  | SolMILP self => MILP.mostrar self
  | SolMINLP self => MINLP.mostrar self
  end.

(** The names whose values the interpreter of a class displays. *)
Definition mostrados (s : solicitud) (m : model) : list str :=
  match s with
  | SolLP _ _ | SolIP _ _ => m_i m
  | SolNLP self => NLP.variables self
  | SolMILP self => MILP.all_vars self
  | SolMINLP self => MINLP.indices self
  end.

Definition decimales (s : solicitud) : nat :=
  match s with
  | SolLP _ _ | SolIP _ _ => 2
  | _ => 4
  end.

(** The backend reports status ok and termination condition optimal. *)
Definition optimo (r : resultado) : Prop :=
  status r = lit "ok" ∧ termination_condition r = lit "optimal".



Definition sentido_de (s : solicitud) : sentido :=
  match s with
  | SolLP self _ | SolIP self _ => Lineal.tipo_objetivo self
  | SolNLP self => NLP.tipo_objetivo self
  | SolMILP self | SolMINLP self => mx_tipo_objetivo self
  end.

Definition restricciones_de (s : solicitud) : list fila_expr :=
  match s with
  | SolNLP self => NLP.restricciones self
  | SolMILP self | SolMINLP self => mx_restricciones self
  | _ => []
  end.


Section forma_de_la_traza.
Context `{Externos}.


(** The part of a solve request that comes before the call of the backend:
    for LP and IP the validation and, if it passes, the build; for the
    other classes the declarations, the objective and the constraints.
    [None]: the request has ended without a model. *)
Definition armado (s : solicitud) : M (option model) :=
  match s with
  | SolLP self param_names =>
      let* valido := Lineal.validar_parametros self param_names in
      if valido then let* m := Lineal.armar NonNegativeReals self in ret (Some m)
      else ret None
  | SolIP self param_names =>
      let* valido := Lineal.validar_parametros self param_names in
      if valido then let* m := Lineal.armar NonNegativeIntegers self in ret (Some m)
      else ret None
  | SolNLP self =>
      armar_desde (NLP.declarar self) (ligadura (NLP.variables self))
        (NLP.funcion_objetivo self) (NLP.tipo_objetivo self) (NLP.restricciones self)
  | SolMILP self =>
      armar_desde (MILP.declarar self)
        (ligadura (variables_enteras self ++ variables_continuas self))
        (mx_funcion_objetivo self) (mx_tipo_objetivo self) (mx_restricciones self)
  | SolMINLP self =>
      armar_desde (MINLP.declarar self) (ligadura (MINLP.indices self))
        (mx_funcion_objetivo self) (mx_tipo_objetivo self) (mx_restricciones self)
  end.


(** The three shapes of the trace of a solve request: no backend call; one
    call, to the backend of the class, that raises; or one such call
    followed by the interpretation of its result. *)
Inductive forma (s : solicitud) : list event → Prop :=
| forma_sin_llamada (t : list event) :
    llamadas t = [] → forma s t
| forma_backend_falla (m : model) (e : exn) :
    m_vars m = m_vars (declarado s) ∧ m_i m = m_i (declarado s) →
    solver_solve (backend (clase s)) m = Raise e →
    forma s [solve (backend (clase s)) m]
| forma_interpretada (m : model) (r : resultado) :
    m_vars m = m_vars (declarado s) ∧ m_i m = m_i (declarado s) →
    solver_solve (backend (clase s)) m = Ok r →
    forma s (solve (backend (clase s)) m :: traza (interpretar s m r)).

End forma_de_la_traza.

(** *** Definitions used to state the properties of the forms *)

(** [",".join(ids)] *)
Fixpoint unir (ids : list str) : str :=
  match ids with
  | [] => []
  | [id] => id
  | id :: resto => id ++ coma :: unir resto
  end.

(** A character that leaves no trace in the parsed list: whitespace, or
    the separator. *)
Definition blanco_o_coma (c : N) : Prop :=
  Py_UNICODE_ISSPACE c = true ∨ c = coma.

(** The key of the number input of a parameter value. *)
Definition clave_valor (v : variante) (pname el : str) : str :=
  prefijo v ++ pname ++ lit "_" ++ el.

(** [key] is one of the three keys of row [i] of an expression form. *)
Definition es_de_fila (prefijo : str) (i : nat) (key : str) : Prop :=
  key = prefijo ++ lit "expr_" ++ py_str i
  ∨ key = prefijo ++ lit "op_" ++ py_str i
  ∨ key = prefijo ++ lit "val_" ++ py_str i.

(** No key of a row from [i] on is in use. *)
Definition libres (prefijo : str) (i : nat) (u : gset str) : Prop :=
  ∀ j key, (i ≤ j)%nat → es_de_fila prefijo j key → key ∉ u.

(** What an expression form hands over: a request of class [c] with the
    sense of the chosen option and [num_restr] rows, every operator
    canonical. *)
Definition solicitud_de_expresiones (s : solicitud) (c : ProblemClass)
    (objetivo_input : str) (num_restr : nat) : Prop :=
  clase s = c
  ∧ sentido_de s = sentido_de_opcion objetivo_input
  ∧ length (restricciones_de s) = num_restr
  ∧ Forall (fun r => e_operador r ∈ canonicos) (restricciones_de s).

Section paginas.
Context `{Externos} `{Sesion}.

(** How a page ends once its form and its two buttons have gone through:
    with the exception of the solve request if "Resolver" is pressed and
    the request raises, else at [st.stop()] if "Salir" is pressed, else at
    the end of the script. *)
Definition desenlace_de_pagina (s : solicitud) (w_resolver w_salir : widget) : desenlace unit :=
  match (if pulsado w_resolver then final (resolver s) else Ok tt) with
  | Raise e => Falla (Excepcion e)
  | Ok _ => if pulsado w_salir then Detenido else Continua tt
  end.

(** A page of an expression class whose form cannot fail: the form hands
    over a request of class [c] with the sense chosen in [w_tipo] and the
    number of rows asked for in [w_num_restr]; the page shows the events of
    the solve request if "Resolver" is pressed, and nothing of the
    calculators otherwise. *)
Definition pagina_completa (formulario : F solicitud) (interfaz : F unit)
    (c : ProblemClass) (w_tipo w_num_restr w_resolver w_salir : widget)
    (num_restr_default : nat) : Prop :=
  ∃ s,
    resultado_de (formulario ∅) = Continua s
    ∧ mostrado (formulario ∅) = []
    ∧ solicitud_de_expresiones s c (valor_opcion w_tipo sentidos 0)
         (valor_entero w_num_restr 0 num_restr_default)
    ∧ eventos (mostrado (interfaz ∅))
       = (if pulsado w_resolver then traza (resolver s) else [])
    ∧ resultado_de (interfaz ∅) = desenlace_de_pagina s w_resolver w_salir.

End paginas.

(** The backend calls among what a page has shown. *)
Definition llamadas_de {A} (r : desenlace A * gset str * list salida) : list (str * model) :=
  llamadas (eventos (mostrado r)).

(** No run of [m] shows a backend call. *)
Definition sin_llamadas {A} (m : F A) : Prop := ∀ u, llamadas_de (m u) = [].

(** The label of each class in the menu. *)
Definition etiqueta (c : ProblemClass) : str :=
  match c with
  | cLP => programacion ++ lit " Lineal (LP)"
  | cIP => programacion ++ lit " Entera (IP)"
  | cNLP => programacion ++ lit " No Lineal (NLP)"
  | cMILP => programacion ++ lit " Entera Mixta (MILP)"
  | cMINLP => programacion ++ lit " No Lineal Mixta (MINLP)"
  end.

(** ** Identifier lists *)

Example parse_lista_default :
  parse_lista (lit "Desk, Table, Chairs") = [lit "Desk"; lit "Table"; lit "Chairs"].
Proof. reflexivity. Qed.

Example parse_lista_interior :
  parse_lista (lit " a b ,, c ,") = [lit "a_b"; lit "c"].
Proof. reflexivity. Qed.

Lemma lstrip_sufijo (s : str) : ∃ p, s = p ++ lstrip s.
Proof.
  induction s as [|c s [p IH]]; simpl.
  - by exists [].
  - destruct (Py_UNICODE_ISSPACE c).
    + exists (c :: p). simpl. by rewrite <- IH.
    + by exists [].
Qed.

Lemma lstrip_head (s : str) (c : N) :
  head (lstrip s) = Some c → Py_UNICODE_ISSPACE c = false.
Proof.
  induction s as [|d s IH]; simpl; [done|].
  destruct (Py_UNICODE_ISSPACE d) eqn:E; [done|].
  simpl. intros [= <-]. done.
Qed.

Lemma rstrip_prefijo (s : str) : ∃ q, s = rstrip s ++ q.
Proof.
  unfold rstrip. destruct (lstrip_sufijo (reverse s)) as [p Hp].
  exists (reverse p).
  rewrite <- reverse_app, <- Hp. by rewrite reverse_involutive.
Qed.

Lemma rstrip_last (s : str) (c : N) :
  last (rstrip s) = Some c → Py_UNICODE_ISSPACE c = false.
Proof.
  unfold rstrip. rewrite last_reverse. apply lstrip_head.
Qed.

Lemma strip_head (s : str) (c : N) :
  head (strip s) = Some c → Py_UNICODE_ISSPACE c = false.
Proof.
  unfold strip. destruct (rstrip_prefijo (lstrip s)) as [q Hq].
  intros Hc. apply (lstrip_head s). rewrite Hq.
  destruct (rstrip (lstrip s)); [done|]. done.
Qed.

Lemma strip_last (s : str) (c : N) :
  last (strip s) = Some c → Py_UNICODE_ISSPACE c = false.
Proof. apply rstrip_last. Qed.

Lemma replace_head (old new : N) (s : str) :
  head (replace old new s) = (fun c => if c =? old then new else c) <$> head s.
Proof. by destruct s. Qed.

Lemma replace_last (old new : N) (s : str) :
  last (replace old new s) = (fun c => if c =? old then new else c) <$> last s.
Proof.
  induction s as [|c [|d s] IH]; [done..|].
  exact IH.
Qed.

Lemma replace_sin_espacio (s : str) : espacio ∉ replace espacio guion_bajo s.
Proof.
  induction s as [|c s IH]; simpl.
  - apply not_elem_of_nil.
  - apply not_elem_of_cons. split; [|done].
    destruct (c =? espacio) eqn:E; [done|].
    apply N.eqb_neq in E. congruence.
Qed.

Lemma segmento_limpio (item id : str) : segmento item = Some id → limpio id.
Proof.
  unfold segmento. destruct (truthy (strip item)) eqn:Et; [|done].
  intros [= <-]. repeat split.
  - destruct (strip item); [done|]. done.
  - apply replace_sin_espacio.
  - intros d. rewrite replace_head.
    destruct (head (strip item)) as [h|] eqn:Hh; simpl; [|done].
    intros [= <-]. pose proof (strip_head _ _ Hh) as Hs.
    destruct (h =? espacio) eqn:Eh; [|done].
    apply N.eqb_eq in Eh. subst h. done.
  - intros d. rewrite replace_last.
    destruct (last (strip item)) as [h|] eqn:Hh; simpl; [|done].
    intros [= <-]. pose proof (strip_last _ _ Hh) as Hs.
    destruct (h =? espacio) eqn:Eh; [|done].
    apply N.eqb_eq in Eh. subst h. done.
Qed.

Lemma parse_lista_omap (texto : str) :
  parse_lista texto = omap segmento (split coma texto).
Proof.
  unfold parse_lista. induction (split coma texto) as [|item l IH]; [done|].
  simpl. unfold segmento at 1.
  destruct (truthy (strip item)); simpl; by rewrite IH.
Qed.

Lemma split_length (sep : N) (s : str) :
  length (split sep s) = S (length (List.filter (N.eqb sep) s)).
Proof.
  induction s as [|c s IH]; [done|].
  simpl. rewrite (N.eqb_sym sep c).
  destruct (c =? sep); simpl.
  - by rewrite IH.
  - destruct (split sep s); simpl in *; [done|]. done.
Qed.

Lemma omap_length_le {A B} (f : A → option B) (l : list A) :
  (length (omap f l) ≤ length l)%nat.
Proof.
  induction l as [|x l IH]; [done|].
  cbn. destruct (f x); cbn; lia.
Qed.

(** C7 (as amended): [parse_lista] returns, in order, the comma-separated
    segments trimmed of surrounding whitespace, with every space character
    replaced by an underscore and the segments that are empty after
    trimming dropped.  Every emitted identifier is non-empty, contains no
    space character and has no whitespace at either end, and there are at
    most as many identifiers as segments (one more than the commas). *)
Theorem parse_lista_identificadores (texto : str) :
  parse_lista texto = omap segmento (split coma texto)
  ∧ Forall limpio (parse_lista texto)
  ∧ (length (parse_lista texto) ≤ length (split coma texto))%nat
  ∧ length (split coma texto) = S (length (List.filter (N.eqb coma) texto)).
Proof.
  split; [apply parse_lista_omap|].
  split.
  - rewrite parse_lista_omap. apply Forall_forall. intros id Hid.
    apply list_elem_of_omap in Hid as (item & _ & Hseg).
    by apply (segmento_limpio item).
  - split; [|apply split_length].
    rewrite parse_lista_omap. apply omap_length_le.
Qed.

(** C7 (as stated) fails: a tab between two letters is whitespace, is not
    at an end of its segment, and is emitted unchanged. *)
Lemma parse_lista_tabulador :
  parse_lista [97; 9; 98] = [[97; 9; 98]]
  ∧ Py_UNICODE_ISSPACE 9 = true
  ∧ forallb sin_blancos (parse_lista [97; 9; 98]) = false.
Proof. by vm_compute. Qed.

(** ** Operator canonicalization and the linear-mode normalizer *)

Lemma operadores_validos_dominio (s : str) :
  s ∉ simbolos → Lineal.operadores_validos !! s = None.
Proof.
  intros Hs. apply not_elem_of_list_to_map_1. exact Hs.
Qed.

Lemma operadores_validos_grafo (s c : str) :
  Lineal.operadores_validos !! s = Some c →
  (s, c) ∈ zip simbolos canonicos.
Proof. intros Hs. by apply elem_of_list_to_map_2 in Hs. Qed.

Lemma operadores_validos_simbolo (s : str) :
  s ∈ simbolos ↔ is_Some (Lineal.operadores_validos !! s).
Proof.
  split.
  - intros Hs. destruct (Lineal.operadores_validos !! s) eqn:E; [done|].
    apply not_elem_of_list_to_map_2 in E. done.
  - intros [c Hc]. destruct (decide (s ∈ simbolos)) as [|Hn]; [done|].
    by rewrite (operadores_validos_dominio s Hn) in Hc.
Qed.

Lemma operadores_validos_canonico (s c : str) :
  Lineal.operadores_validos !! s = Some c → c ∈ canonicos.
Proof.
  intros Hs. apply operadores_validos_grafo in Hs.
  apply (list_elem_of_fmap_2 snd) in Hs. exact Hs.
Qed.

Section normalizador.
Context `{Externos}.

Lemma parse_bucle_spec (param_names : list str) (entradas : list Lineal.fila) :
  ∀ idx acc,
    Lineal.parse_bucle param_names idx entradas acc
    = (Ok (acc ++ omap (normalizar param_names) entradas),
       st_error <$> diagnosticos param_names idx entradas).
Proof.
  induction entradas as [|restr resto IH]; intros idx acc.
  - simpl. by rewrite app_nil_r.
  - cbn [Lineal.parse_bucle diagnosticos]. unfold Lineal.parse_paso.
    cbn [omap list_omap]. unfold normalizar at 1, diagnostico at 1.
    destruct (decide (Lineal.f_parametro restr ∈ param_names)) as [Hp|Hp].
    + rewrite (bool_decide_false (_ ∉ _)) by (intros Hn; by apply Hn).
      rewrite (bool_decide_true (_ ∈ _)) by done.
      destruct (Lineal.operadores_validos !! Lineal.f_operador restr) as [c|];
        [|cbn; by rewrite IH].
      destruct (Lineal.py_float (Lineal.f_valor restr)) as [v|];
        cbn; rewrite IH; [|done].
      by rewrite <- app_assoc.
    + rewrite (bool_decide_true (_ ∉ _)) by done.
      rewrite (bool_decide_false (_ ∈ _)) by done.
      cbn. by rewrite IH.
Qed.

Lemma diagnosticos_app (param_names : list str) (l1 l2 : list Lineal.fila) :
  ∀ idx, diagnosticos param_names idx (l1 ++ l2)
         = diagnosticos param_names idx l1
           ++ diagnosticos param_names (idx + length l1) l2.
Proof.
  induction l1 as [|r l1 IH]; intros idx; simpl.
  - by rewrite Nat.add_0_r.
  - rewrite IH, <- app_assoc. by rewrite Nat.add_succ_r.
Qed.

Lemma normalizar_valida (param_names : list str) (restr : Lineal.fila) :
  fila_valida param_names restr ↔ is_Some (normalizar param_names restr).
Proof.
  unfold fila_valida, normalizar. rewrite operadores_validos_simbolo.
  case_bool_decide as Hp.
  - destruct (Lineal.operadores_validos !! _) as [c|]; simpl.
    + destruct (Lineal.py_float _) as [v|]; simpl.
      * split; [by eauto|]. intros _. by eauto.
      * split; [intros (_ & _ & [? ?]); done|intros [? ?]; done].
    + split; [intros (_ & [? ?] & _); done|intros [? ?]; done].
  - split; [intros (? & _); done|intros [? ?]; done].
Qed.

Lemma diagnostico_no_valida (param_names : list str) (idx : nat) (restr : Lineal.fila) :
  diagnostico param_names idx restr = None ↔ is_Some (normalizar param_names restr).
Proof.
  unfold diagnostico, normalizar.
  case_bool_decide as Hp.
  - destruct (Lineal.operadores_validos !! _) as [c|]; simpl.
    + destruct (Lineal.py_float _) as [v|]; simpl.
      * split; [by eauto|done].
      * split; [done|intros [? ?]; done].
    + split; [done|intros [? ?]; done].
  - split; [done|intros [? ?]; done].
Qed.

End normalizador.

Section canonicalizacion.
Context `{Externos}.

(** C3: [operadores_validos] sends the six symbols ≤ ≥ = < > ≠ to the six
    tags <= >= == < > != in that order, one to one and onto; every other
    symbol has no canonical form, and a row that reaches the operator check
    with such a symbol is reported with its 1-based row number. *)
Theorem operadores_biyeccion :
  ((Lineal.operadores_validos !!.) <$> simbolos) = Some <$> canonicos
  ∧ NoDup simbolos ∧ NoDup canonicos
  ∧ (∀ s t c, Lineal.operadores_validos !! s = Some c →
              Lineal.operadores_validos !! t = Some c → s = t)
  ∧ (∀ c, c ∈ canonicos ↔ ∃ s, s ∈ simbolos ∧ Lineal.operadores_validos !! s = Some c)
  ∧ (∀ s, s ∉ simbolos →
       Lineal.operadores_validos !! s = None
       ∧ ∀ param_names antes restr despues,
           Lineal.f_operador restr = s →
           Lineal.f_parametro restr ∈ param_names →
           st_error (OperadorNoValido (length antes + 1) s)
             ∈ traza (Lineal.parse_restricciones (antes ++ restr :: despues) param_names)).
Proof.
  assert (Htabla : ((Lineal.operadores_validos !!.) <$> simbolos) = Some <$> canonicos)
    by (by vm_compute).
  split; [exact Htabla|].
  split; [apply (bool_decide_unpack _); by vm_compute|].
  split; [apply (bool_decide_unpack _); by vm_compute|].
  split; [|split].
  - intros s t c Hs Ht.
    apply operadores_validos_grafo in Hs, Ht.
    assert (Hinj : Forall (fun p : str * str =>
                     Forall (fun q : str * str => p.2 = q.2 → p.1 = q.1)
                       (zip simbolos canonicos)) (zip simbolos canonicos))
      by (apply (bool_decide_unpack _); by vm_compute).
    rewrite Forall_forall in Hinj. specialize (Hinj _ Hs).
    rewrite Forall_forall in Hinj. exact (Hinj _ Ht eq_refl).
  - intros c. split.
    + intros Hc. apply (list_elem_of_fmap_2 Some) in Hc.
      rewrite <- Htabla in Hc.
      apply list_elem_of_fmap in Hc as (s & Hs & Hin). by exists s.
    + intros (s & _ & Hs). by apply (operadores_validos_canonico s).
  - intros s Hs. split; [by apply operadores_validos_dominio|].
    intros param_names antes restr despues Hop Hpar.
    unfold Lineal.parse_restricciones. rewrite parse_bucle_spec. cbn [traza snd].
    rewrite diagnosticos_app. cbn [diagnosticos].
    unfold diagnostico.
    rewrite bool_decide_true by done.
    rewrite Hop, (operadores_validos_dominio s Hs). cbn [option_list].
    rewrite !fmap_app. apply elem_of_app. right.
    apply elem_of_app. left. cbn. apply list_elem_of_here.
Qed.


End canonicalizacion.

(** ** Parameter coverage *)

Section cobertura.
Context `{Externos}.

Lemma validar_parametros_completos (self : Lineal.estado) (param_names : list str) :
  Forall (fun n => ¬ incompleto self n) param_names →
  Lineal.validar_parametros self param_names = (Ok true, []).
Proof.
  induction 1 as [|n l Hn _ IH]; [done|].
  cbn [Lineal.validar_parametros]. by rewrite bool_decide_false.
Qed.

Lemma validar_parametros_primero (self : Lineal.estado) (antes despues : list str)
    (nombre_param : str) :
  Forall (fun n => ¬ incompleto self n) antes →
  incompleto self nombre_param →
  Lineal.validar_parametros self (antes ++ nombre_param :: despues)
  = (Ok false, [st_error (ParametroIncompleto nombre_param)]).
Proof.
  intros Hantes Hn. induction Hantes as [|n l Hc _ IH].
  - cbn [app Lineal.validar_parametros]. by rewrite bool_decide_true.
  - cbn [app Lineal.validar_parametros]. by rewrite bool_decide_false.
Qed.

Lemma validar_parametros_true (self : Lineal.estado) (param_names : list str) :
  final (Lineal.validar_parametros self param_names) = Ok true →
  Forall (fun n => ¬ incompleto self n) param_names.
Proof.
  induction param_names as [|n l IH]; [by constructor|].
  cbn [Lineal.validar_parametros]. case_bool_decide as Hn; [done|].
  intros Hl. constructor; [|by apply IH].
  intros Hinc. by apply Hinc.
Qed.

Lemma primer_incompleto (self : Lineal.estado) (param_names : list str) :
  Exists (incompleto self) param_names →
  ∃ antes nombre_param despues,
    param_names = antes ++ nombre_param :: despues
    ∧ Forall (fun n => ¬ incompleto self n) antes
    ∧ incompleto self nombre_param.
Proof.
  induction param_names as [|n l IH]; intros Hex; [by inversion Hex|].
  destruct (decide (dom (default ∅ (Lineal.parametros self !! n))
                    = (list_to_set (Lineal.elementos self) : gset str))) as [Hn|Hn].
  - inversion Hex as [? ? Hbad|? ? Hl]; subst; [done|].
    destruct (IH Hl) as (antes & m & despues & -> & Ha & Hm).
    exists (n :: antes), m, despues. split; [done|]. split; [|done].
    constructor; [|done]. intros Hinc. by apply Hinc.
  - exists [], n, l. split; [done|]. split; [by constructor|]. exact Hn.
Qed.

(** C2 (as amended): when some declared parameter does not have values for
    exactly the declared elements, the "Resolver" step of LP and of IP
    reports one coverage violation, for the first such parameter in
    declaration order, and ends there: no model is built and the backend
    is not invoked. *)
Theorem resolver_cobertura (self : Lineal.estado) (param_names : list str)
    (Hfalta : Exists (incompleto self) param_names) :
  ∃ antes nombre_param despues,
    param_names = antes ++ nombre_param :: despues
    ∧ Forall (fun n => ¬ incompleto self n) antes
    ∧ incompleto self nombre_param
    ∧ resolver (SolLP self param_names)
      = (Ok tt, [st_error (ParametroIncompleto nombre_param)])
    ∧ resolver (SolIP self param_names)
      = (Ok tt, [st_error (ParametroIncompleto nombre_param)])
    ∧ llamadas (traza (resolver (SolLP self param_names))) = []
    ∧ llamadas (traza (resolver (SolIP self param_names))) = [].
Proof.
  destruct (primer_incompleto self param_names Hfalta)
    as (antes & n & despues & -> & Ha & Hn).
  exists antes, n, despues. split; [done|]. split; [done|]. split; [done|].
  assert (Hres : ∀ d, Lineal.resolver d self (antes ++ n :: despues)
                      = (Ok tt, [st_error (ParametroIncompleto n)])).
  { intros d. unfold Lineal.resolver.
    by rewrite (validar_parametros_primero self antes despues n Ha Hn). }
  cbn [resolver]. unfold LP.resolver, IP.resolver. rewrite !Hres. done.
Qed.

End cobertura.

(** C2 (as stated) fails: with element [a] and no values at all, both [p]
    and [q] lack coverage, and only [p] is reported. *)
Lemma cobertura_solo_primero :
  let self := Lineal.Estado [lit "a"] ∅ [] (lit "p") maximize in
  incompleto self (lit "p") ∧ incompleto self (lit "q")
  ∧ errores (traza (resolver (H := Pruebas.externos) (SolLP self [lit "p"; lit "q"])))
    = [ParametroIncompleto (lit "p")].
Proof.
  cbn zeta. split; [|split].
  - apply (bool_decide_unpack _). by vm_compute.
  - apply (bool_decide_unpack _). by vm_compute.
  - by vm_compute.
Qed.

(** The hypothesis of [resolver_cobertura] holds on that input. *)
Lemma resolver_cobertura_witness :
  ∃ antes nombre_param despues,
    [lit "p"; lit "q"] = antes ++ nombre_param :: despues
    ∧ resolver (H := Pruebas.externos)
        (SolLP (Lineal.Estado [lit "a"] ∅ [] (lit "p") maximize) [lit "p"; lit "q"])
      = (Ok tt, [st_error (ParametroIncompleto nombre_param)]).
Proof.
  destruct (resolver_cobertura (H := Pruebas.externos)
              (Lineal.Estado [lit "a"] ∅ [] (lit "p") maximize) [lit "p"; lit "q"])
    as (antes & n & despues & H1 & _ & _ & H2 & _).
  - apply Exists_cons_hd. apply (bool_decide_unpack _). by vm_compute.
  - by exists antes, n, despues.
Defined.

(** ** The shape of the trace of a solve request *)

Lemma llamadas_escribir_valores (dec : nat) (r : resultado) (nombres : list str) :
  llamadas (traza (escribir_valores dec r nombres)) = [].
Proof.
  unfold escribir_valores, llamadas. cbn [traza snd].
  induction nombres as [|v l IH]; [done|]. exact IH.
Qed.



Lemma es_optimo_texto_spec (r : resultado) :
  Lineal.es_optimo_texto r = true ↔ optimo r.
Proof.
  unfold Lineal.es_optimo_texto, optimo.
  rewrite andb_true_iff, !bool_decide_eq_true. done.
Qed.

Lemma es_optimo_enum_spec (r : resultado) :
  MILP.es_optimo_enum r = true ↔ optimo r.
Proof.
  unfold MILP.es_optimo_enum, optimo, SolverStatus_ok, TerminationCondition_optimal.
  rewrite andb_true_iff, !bool_decide_eq_true. done.
Qed.

(** What every interpreter does, by cases on the status test. *)
Lemma interpretar_traza (s : solicitud) (m : model) (r : resultado) :
  (optimo r ∧
   traza (interpretar s m r)
   = st_success :: st_markdown_objetivo (valor_objetivo r) (decimales s)
     :: map (fun v => st_write_valor v (valor_var r v) (decimales s)) (mostrados s m))
  ∨ (¬ optimo r ∧
     (traza (interpretar s m r) = [st_error SinSolucionOptima]
      ∨ traza (interpretar s m r)
        = [st_error SinSolucionOptima; st_write_estado (status r);
           st_write_terminacion (termination_condition r)])).
Proof.
  destruct s as [self names|self names|self|self|self];
    cbn [interpretar mostrados decimales];
    unfold Lineal.mostrar, NLP.mostrar, MILP.mostrar, MINLP.mostrar.
  1,2,3,5:
    destruct (Lineal.es_optimo_texto r) eqn:E;
    [left; split; [by apply es_optimo_texto_spec|done]
    |right; split; [|by left];
     intros Ho; apply es_optimo_texto_spec in Ho; congruence].
  destruct (MILP.es_optimo_enum r) eqn:E;
    [left; split; [by apply es_optimo_enum_spec|done]
    |right; split; [|by right];
     intros Ho; apply es_optimo_enum_spec in Ho; congruence].
Qed.

Lemma llamadas_interpretar (s : solicitud) (m : model) (r : resultado) :
  llamadas (traza (interpretar s m r)) = [].
Proof.
  destruct (interpretar_traza s m r) as [[_ ->]|[_ [->| ->]]]; [|done..].
  cbn. apply (llamadas_escribir_valores (decimales s) r (mostrados s m)).
Qed.

Section forma_de_resolver.
Context `{Externos}.

Lemma validar_parametros_casos (self : Lineal.estado) (param_names : list str) :
  Lineal.validar_parametros self param_names = (Ok true, [])
  ∨ ∃ n, Lineal.validar_parametros self param_names
         = (Ok false, [st_error (ParametroIncompleto n)]).
Proof.
  induction param_names as [|n l IH]; [by left|].
  cbn [Lineal.validar_parametros]. case_bool_decide; [|exact IH].
  right. by exists n.
Qed.

Lemma resolver_con_forma (s : solicitud) (m : model) :
  m_vars m = m_vars (declarado s) ∧ m_i m = m_i (declarado s) →
  forma s (traza (let* resultado := resolver_con (backend (clase s)) m in
                  interpretar s m resultado)).
Proof.
  intros Hvars. unfold resolver_con, emit, lift, bind.
  destruct (solver_solve (backend (clase s)) m) as [r|e] eqn:Hs.
  - destruct (interpretar s m r) as [o t] eqn:Hi.
    change t with (traza (o, t)). rewrite <- Hi.
    by apply forma_interpretada.
  - by eapply forma_backend_falla.
Qed.

(** Closes a goal on a trace that holds no backend call. *)
Ltac sin_llamada := apply forma_sin_llamada; reflexivity.

Lemma bind_ret_l {A B} (a : A) (k : A → M B) : bind (Ok a, []) k = k a.
Proof. unfold bind. by destruct (k a). Qed.

Lemma bind_bind_ret {A B C} (m : M A) (f : A → B) (k : B → M C) :
  bind (bind m (fun a => ret (f a))) k = bind m (fun a => k (f a)).
Proof. destruct m as [[a|e] t]; cbn; [|done]. by rewrite app_nil_r. Qed.

(** A solve request is its build followed, when there is a model, by the
    call of the backend of its class and the interpretation of the
    result. *)
Lemma resolver_armado (s : solicitud) :
  resolver s
  = let* armado := armado s in
    match armado with
    | Some m =>
        let* resultado := resolver_con (backend (clase s)) m in
        interpretar s m resultado
    | None => ret tt
    end.
Proof.
  assert (Hlineal : ∀ d self names (k : option model → M unit),
    (∀ m, k (Some m) = let* resultado := resolver_con (lit "glpk") m in
                       Lineal.mostrar m resultado) →
    k None = ret tt →
    Lineal.resolver d self names
    = bind (let* valido := Lineal.validar_parametros self names in
            if valido then let* m := Lineal.armar d self in ret (Some m) else ret None) k).
  { intros d self names k Hsome Hnone. unfold Lineal.resolver.
    destruct (validar_parametros_casos self names) as [->|[n ->]].
    - rewrite !bind_ret_l, bind_bind_ret. unfold Lineal.construir_modelo.
      destruct (Lineal.armar d self) as [[m|e] t]; [|done].
      unfold bind at 1 3. by rewrite Hsome.
    - cbn. by rewrite Hnone. }
  destruct s as [self names|self names|self|self|self]; cbn [resolver armado clase backend];
    [by apply Hlineal|by apply Hlineal|done..].
Qed.

Lemma capturar_casos (informe : exn → mensaje) (e : exn) :
  capturar informe e = (Ok None, [st_error (informe e)])
  ∨ capturar informe e = (Raise e, []).
Proof. unfold capturar. destruct (es_Exception e); [by left|by right]. Qed.

(** How the build of an expression class ends: with a model that has the
    variables handed in, with one report, or with an exception. *)
Lemma armar_desde_casos (m : model) (locales : gmap str term) (fo : str)
    (tipo : sentido) (rs : list fila_expr) :
  (∃ m', armar_desde m locales fo tipo rs = (Ok (Some m'), [])
         ∧ m_vars m' = m_vars m ∧ m_i m' = m_i m)
  ∨ (∃ msg, armar_desde m locales fo tipo rs = (Ok None, [st_error msg]))
  ∨ (∃ e, armar_desde m locales fo tipo rs = (Raise e, [])).
Proof.
  unfold armar_desde.
  destruct (py_eval fo locales) as [obj|e].
  - destruct (evaluar_restricciones locales rs []) as [cl|e].
    + left. by eexists.
    + right. destruct (capturar_casos ErrorRestriccion e) as [-> | ->];
        [left|right]; by eexists.
  - right. destruct (capturar_casos ErrorObjetivo e) as [-> | ->];
      [left|right]; by eexists.
Qed.

(** The build of LP and IP ends with a model that has the declared
    variables, or with an exception; it shows nothing. *)
Lemma armar_casos (d : dominio) (self : Lineal.estado) :
  (∃ m, Lineal.armar d self = (Ok m, [])
        ∧ Lineal.declarar d self = Ok (Lineal.declaraciones d self)
        ∧ m_vars m = m_vars (Lineal.declaraciones d self)
        ∧ m_i m = m_i (Lineal.declaraciones d self))
  ∨ (∃ e, Lineal.armar d self = (Raise e, [])).
Proof.
  unfold Lineal.armar.
  destruct (Lineal.declarar d self) as [m0|e] eqn:Hd; [|right; by exists e].
  assert (m0 = Lineal.declaraciones d self) as ->.
  { unfold Lineal.declarar in Hd. case_bool_decide; [done|]. by injection Hd. }
  unfold lift. rewrite !bind_ret_l.
  destruct (Lineal.suma_param_x _ _ _) as [obj|e]; [|right; exists e; reflexivity].
  rewrite !bind_ret_l.
  destruct (Lineal.definir_restricciones _ _ _) as [cl|e]; [|right; exists e; reflexivity].
  rewrite !bind_ret_l. left. by eexists.
Qed.

Lemma armado_casos (s : solicitud) :
  (∃ m, armado s = (Ok (Some m), [])
        ∧ declaracion s = Ok (declarado s)
        ∧ m_vars m = m_vars (declarado s) ∧ m_i m = m_i (declarado s))
  ∨ (∃ msg, armado s = (Ok None, [st_error msg]))
  ∨ (∃ e, armado s = (Raise e, [])).
Proof.
  assert (Hlineal : ∀ d self names,
    let a := let* valido := Lineal.validar_parametros self names in
             if valido then let* m := Lineal.armar d self in ret (Some m)
             else ret None in
    (∃ m, a = (Ok (Some m), [])
          ∧ Lineal.declarar d self = Ok (Lineal.declaraciones d self)
          ∧ m_vars m = m_vars (Lineal.declaraciones d self)
          ∧ m_i m = m_i (Lineal.declaraciones d self))
    ∨ (∃ msg, a = (Ok None, [st_error msg]))
    ∨ (∃ e, a = (Raise e, []))).
  { intros d self names. cbn zeta.
    destruct (validar_parametros_casos self names) as [->|[n ->]].
    - rewrite bind_ret_l.
      destruct (armar_casos d self) as [(m & -> & Hd & Hv & Hi)|(e & ->)].
      + left. by exists m.
      + right. right. by exists e.
    - right. left. by eexists. }
  destruct s as [self names|self names|self|self|self];
    cbn [armado declarado declaracion]; [apply Hlineal|apply Hlineal|..].
  all: match goal with
       | |- context [armar_desde ?m ?l ?fo ?tipo ?rs] =>
           destruct (armar_desde_casos m l fo tipo rs)
             as [(m' & -> & Hv & Hi)|[(msg & ->)|(e & ->)]]
       end;
    [left; by exists m'|right; left; by exists msg|right; right; by exists e].
Qed.

Lemma resolver_forma (s : solicitud) : forma s (traza (resolver s)).
Proof.
  rewrite resolver_armado.
  destruct (armado_casos s) as [(m & -> & _ & Hv)|[(msg & ->)|(e & ->)]].
  - rewrite bind_ret_l. by apply resolver_con_forma.
  - sin_llamada.
  - sin_llamada.
Qed.

Lemma llamadas_resolver_con (s : solicitud) (solver : str) (m : model) :
  llamadas (traza (let* resultado := resolver_con solver m in
                   interpretar s m resultado))
  = [(solver, m)].
Proof.
  unfold resolver_con, emit, lift, bind.
  destruct (solver_solve solver m) as [r|e]; [|done].
  pose proof (llamadas_interpretar s m r) as Hll.
  destruct (interpretar s m r) as [o t]. cbn in Hll |- *. by rewrite Hll.
Qed.

(** The backend calls of a request: one, to the backend of the class and
    with the model built, when the build gives a model; none otherwise.
    The build itself makes none. *)
Lemma llamadas_resolver (s : solicitud) :
  llamadas (traza (armado s)) = []
  ∧ llamadas (traza (resolver s))
    = match final (armado s) with
      | Ok (Some m) => [(backend (clase s), m)]
      | _ => []
      end.
Proof.
  rewrite resolver_armado.
  destruct (armado_casos s) as [(m & -> & _)|[(msg & ->)|(e & ->)]]; [|done..].
  split; [done|]. rewrite bind_ret_l. cbn [final fst].
  apply llamadas_resolver_con.
Qed.


Lemma forma_llamadas (s : solicitud) (t : list event) :
  forma s t →
  llamadas t = []
  ∨ ∃ m, (m_vars m = m_vars (declarado s) ∧ m_i m = m_i (declarado s))
         ∧ llamadas t = [(backend (clase s), m)]
         ∧ ((∃ e, solver_solve (backend (clase s)) m = Raise e
                  ∧ t = [solve (backend (clase s)) m])
            ∨ (∃ r, solver_solve (backend (clase s)) m = Ok r
                    ∧ t = solve (backend (clase s)) m :: traza (interpretar s m r))).
Proof.
  intros [t' Ht|m e Hm Hs|m r Hm Hs]; [by left|right..].
  - exists m. split; [done|]. split; [done|]. left. by exists e.
  - exists m. split; [done|]. split; [cbn; by rewrite llamadas_interpretar|].
    right. by exists r.
Qed.

End forma_de_resolver.

(** ** From normalized rows to constraints *)


Lemma comparar_canonico :
  Forall (fun c => is_Some (comparar c) ∧ ramas c = [c]) canonicos.
Proof.
  unfold canonicos.
  repeat (constructor 2;
          [split; [apply (bool_decide_unpack _); by vm_compute|by vm_compute]|]).
  constructor.
Qed.

Section restricciones_lineales.
Context `{Externos}.

(** The rows of a batch after normalization, whatever the batch. *)
Lemma filas_normalizadas (restricciones_input : list Lineal.fila) (param_names : list str) :
  Forall (fun r =>
      Lineal.parametro r ∈ param_names
      ∧ Lineal.operador r ∈ canonicos
      ∧ (∃ restr, restr ∈ restricciones_input
           ∧ Lineal.py_float (Lineal.f_valor restr) = Some (Lineal.valor r))
      ∧ is_Some (comparar (Lineal.operador r))
      ∧ ramas (Lineal.operador r) = [Lineal.operador r])
    (omap (normalizar param_names) restricciones_input).
Proof.
  apply Forall_forall. intros r Hr.
  apply list_elem_of_omap in Hr as (restr & Hin & Hnorm).
  unfold normalizar in Hnorm. case_bool_decide as Hp; [|done].
  destruct (Lineal.operadores_validos !! _) as [c|] eqn:Hc; [|done]. simpl in Hnorm.
  destruct (Lineal.py_float _) as [v|] eqn:Hv; [|done]. simpl in Hnorm.
  injection Hnorm as <-. cbn [Lineal.parametro Lineal.operador Lineal.valor].
  apply operadores_validos_canonico in Hc.
  pose proof comparar_canonico as Hcmp. rewrite Forall_forall in Hcmp.
  destruct (Hcmp c Hc) as [Hsome Hramas].
  split; [done|]. split; [done|]. split; [by exists restr|]. done.
Qed.

(** The build of a linear request with the furniture table [L] over two
    elements and one structured constraint on [L]. *)
Lemma armar_una_fila (d : dominio) (tipo : sentido) (op : str) :
  let self :=
    Lineal.Estado [lit "Desk"; lit "Table"]
      {[ lit "L" := {[ lit "Desk" := 8%float; lit "Table" := 6%float ]} ]}
      [Lineal.Restriccion (lit "L") op 48%float] (lit "L") tipo in
  let suma :=
    TAdd (TAdd (TConst (Entero 0)) (TMul (TConst (Flotante 8)) (TVar (lit "Desk"))))
      (TMul (TConst (Flotante 6)) (TVar (lit "Table"))) in
  Lineal.validar_parametros self [lit "L"] = (Ok true, [])
  ∧ Lineal.armar d self
    = match agregar [] suma op 48%float with
      | Ok cl =>
          (Ok (Model [lit "Desk"; lit "Table"] (Lineal.parametros self)
                 (gset_to_gmap d (list_to_set [lit "Desk"; lit "Table"]))
                 (Some (suma, tipo)) cl), [])
      | Raise e => (Raise e, [])
      end.
Proof.
  cbn zeta. split; [by vm_compute|].
  unfold Lineal.armar.
  change (Lineal.declarar d _) with
    (Ok (Lineal.declaraciones d
           (Lineal.Estado [lit "Desk"; lit "Table"]
              {[ lit "L" := {[ lit "Desk" := 8%float; lit "Table" := 6%float ]} ]}
              [Lineal.Restriccion (lit "L") op 48%float] (lit "L") tipo))).
  unfold lift at 1. rewrite bind_ret_l.
  set (suma := TAdd _ _).
  change (Lineal.suma_param_x _ Lineal.sin_tabla_objetivo _) with (Ok suma).
  unfold lift at 1. rewrite bind_ret_l.
  cbn [Lineal.restricciones Lineal.definir_restricciones Lineal.parametro
       Lineal.operador Lineal.valor].
  change (Lineal.suma_param_x _ Lineal.sin_tabla_restricciones _) with (Ok suma).
  cbn match. by destruct (agregar [] suma op 48%float).
Qed.

(** C10 (the code departs from the claim): every row the normalizer
    emits has a declared parameter, one of the six canonical tags on which
    exactly one test of the chain succeeds, and the [float] of its input
    value.  But not every such row gives a constraint.  With the table [L]
    over two elements validated, the row [L < 48] makes the "Resolver" step
    of LP and of IP end with [ValueError] and the row [L != 48] with
    [PyomoException], nothing shown and glpk never called; the row
    [L <= 48] goes through the same chain and reaches glpk with its one
    constraint. *)
Theorem restricciones_normalizadas (tipo : sentido) :
  let param_names := [lit "L"] in
  let fila simbolo := Lineal.Fila (lit "L") simbolo (Numero 48%float) in
  let self canonico :=
    Lineal.Estado [lit "Desk"; lit "Table"]
      {[ lit "L" := {[ lit "Desk" := 8%float; lit "Table" := 6%float ]} ]}
      [Lineal.Restriccion (lit "L") canonico 48%float] (lit "L") tipo in
  (∀ restricciones_input names,
     final (Lineal.parse_restricciones restricciones_input names)
     = Ok (omap (normalizar names) restricciones_input)
     ∧ Forall (fun r =>
           Lineal.parametro r ∈ names
           ∧ Lineal.operador r ∈ canonicos
           ∧ (∃ restr, restr ∈ restricciones_input
                ∧ Lineal.py_float (Lineal.f_valor restr) = Some (Lineal.valor r))
           ∧ is_Some (comparar (Lineal.operador r))
           ∧ ramas (Lineal.operador r) = [Lineal.operador r])
         (omap (normalizar names) restricciones_input))
  ∧ Lineal.parse_restricciones [fila (lit "<")] param_names
    = (Ok (Lineal.restricciones (self (lit "<"))), [])
  ∧ Lineal.parse_restricciones [fila distinto] param_names
    = (Ok (Lineal.restricciones (self (lit "!="))), [])
  ∧ Lineal.parse_restricciones [fila menor_o_igual] param_names
    = (Ok (Lineal.restricciones (self (lit "<="))), [])
  ∧ resolver (SolLP (self (lit "<")) param_names) = (Raise ValueError, [])
  ∧ resolver (SolIP (self (lit "<")) param_names) = (Raise ValueError, [])
  ∧ resolver (SolLP (self (lit "!=")) param_names) = (Raise PyomoException, [])
  ∧ resolver (SolIP (self (lit "!=")) param_names) = (Raise PyomoException, [])
  ∧ (∃ m, llamadas (traza (resolver (SolLP (self (lit "<=")) param_names)))
          = [(lit "glpk", m)]
          ∧ length (m_restricciones m) = 1%nat)
  ∧ (∃ m, llamadas (traza (resolver (SolIP (self (lit "<=")) param_names)))
          = [(lit "glpk", m)]
          ∧ length (m_restricciones m) = 1%nat).
Proof.
  cbn zeta.
  split.
  { intros restricciones_input names. split; [|apply filas_normalizadas].
    unfold Lineal.parse_restricciones. by rewrite parse_bucle_spec. }
  do 3 (split; [by vm_compute|]).
  assert (Hfalla : ∀ d op e,
    (∀ suma, agregar [] suma op 48%float
             = if es_numero suma then Raise ValueError else Raise e) →
    Lineal.resolver d
      (Lineal.Estado [lit "Desk"; lit "Table"]
         {[ lit "L" := {[ lit "Desk" := 8%float; lit "Table" := 6%float ]} ]}
         [Lineal.Restriccion (lit "L") op 48%float] (lit "L") tipo) [lit "L"]
    = (Raise e, [])).
  { intros d op e Hop. unfold Lineal.resolver, Lineal.construir_modelo.
    destruct (armar_una_fila d tipo op) as [-> ->].
    rewrite bind_ret_l, Hop. done. }
  assert (Hpasa : ∀ d s,
    interpretar s = Lineal.mostrar →
    ∃ m, llamadas (traza (Lineal.resolver d
           (Lineal.Estado [lit "Desk"; lit "Table"]
              {[ lit "L" := {[ lit "Desk" := 8%float; lit "Table" := 6%float ]} ]}
              [Lineal.Restriccion (lit "L") (lit "<=") 48%float] (lit "L") tipo)
           [lit "L"]))
         = [(lit "glpk", m)]
         ∧ length (m_restricciones m) = 1%nat).
  { intros d s Hint. unfold Lineal.resolver, Lineal.construir_modelo.
    destruct (armar_una_fila d tipo (lit "<=")) as [-> ->].
    unfold agregar. change (comparar (lit "<=")) with (Some Le). cbn [es_numero].
    rewrite !bind_ret_l. eexists.
    rewrite <- Hint. split; [apply llamadas_resolver_con|done]. }
  split; [by apply Hfalla|]. split; [by apply Hfalla|].
  split; [by apply Hfalla|]. split; [by apply Hfalla|].
  split.
  - by apply (Hpasa NonNegativeReals (SolLP (Lineal.Estado [] ∅ [] [] tipo) [])).
  - by apply (Hpasa NonNegativeIntegers (SolIP (Lineal.Estado [] ∅ [] [] tipo) [])).
Qed.

End restricciones_lineales.

(** ** Backend selection *)

Section seleccion_de_backend.
Context `{Externos}.

(** C9: the solver a request is dispatched to is fixed by its problem class
    alone.  A solve request is its build followed, whenever the build gives
    a model, by the call of the backend of its class on that model and the
    interpretation of the result.  So the build makes no call, and the
    request makes exactly one when the build gives a model, none
    otherwise; the call names glpk, a mixed-integer-linear solver, for LP,
    IP and MILP, and ipopt, a nonlinear solver, for NLP and MINLP.  Every
    class has requests that reach the call. *)
Theorem backend_por_clase (s : solicitud) :
  resolver s
  = (let* armado := armado s in
     match armado with
     | Some m =>
         let* resultado := resolver_con (backend (clase s)) m in
         interpretar s m resultado
     | None => ret tt
     end)
  ∧ llamadas (traza (armado s)) = []
  ∧ llamadas (traza (resolver s))
    = match final (armado s) with
      | Ok (Some m) => [(backend (clase s), m)]
      | _ => []
      end
  ∧ familia_de (backend (clase s))
    = Some (match clase s with
            | cLP | cIP | cMILP => EnteroMixtoLineal
            | cNLP | cMINLP => NoLineal
            end)
  ∧ backend (clase s)
    = match clase s with
      | cLP | cIP | cMILP => lit "glpk"
      | cNLP | cMINLP => lit "ipopt"
      end
  ∧ ∀ c, ∃ s' m,
      clase s' = c
      ∧ final (armado (H := Pruebas.externos) s') = Ok (Some m)
      ∧ llamadas (traza (resolver (H := Pruebas.externos) s')) = [(backend c, m)].
Proof.
  split; [apply resolver_armado|].
  split; [apply llamadas_resolver|].
  split; [apply llamadas_resolver|].
  split; [by destruct s|]. split; [by destruct s|].
  assert (Hllega : ∀ s' m,
    final (armado (H := Pruebas.externos) s') = Ok (Some m) →
    ∃ m', clase s' = clase s'
          ∧ final (armado (H := Pruebas.externos) s') = Ok (Some m')
          ∧ llamadas (traza (resolver (H := Pruebas.externos) s'))
            = [(backend (clase s'), m')]).
  { intros s' m Hm. exists m. split; [done|]. split; [done|].
    rewrite (proj2 (llamadas_resolver (H := Pruebas.externos) s')). by rewrite Hm. }
  pose (lineal := Lineal.Estado [lit "Desk"] {[ lit "L" := {[ lit "Desk" := 8%float ]} ]}
                    [] (lit "L") maximize).
  pose (mixto := EstadoMixto [lit "x"] [lit "y"] (lit "x + y") minimize []).
  intros [| | | |].
  - exists (SolLP lineal [lit "L"]). eapply Hllega. by vm_compute.
  - exists (SolIP lineal [lit "L"]). eapply Hllega. by vm_compute.
  - exists (SolNLP (NLP.Estado [lit "x"] (lit "x") minimize [])).
    eapply Hllega. by vm_compute.
  - exists (SolMILP mixto). eapply Hllega. by vm_compute.
  - exists (SolMINLP mixto). eapply Hllega. by vm_compute.
Qed.

End seleccion_de_backend.

(** ** Variable domains *)











Section dominios.
Context `{Externos}.



End dominios.


(** ** Result interpretation *)

Section interprete.
Context `{Externos}.


End interprete.

(** ** Evaluation failures in the expression classes *)

Section evaluacion.
Context `{Externos}.







End evaluacion.




(** ** Name resolution inside [eval] *)

(** The example of the specification: [x + 2*y] with [x] bound to 1 and
    [y] to 3 is 7, and an unbound [z] raises. *)
Example eval_ejemplo :
  @py_eval Pruebas.externos (lit "x + 2*y")
    {[ lit "x" := TConst (Entero 1); lit "y" := TConst (Entero 3) ]}
  = Ok (TConst (Entero 7))
  ∧ @py_eval Pruebas.externos (lit "x + 2*z")
      {[ lit "x" := TConst (Entero 1); lit "y" := TConst (Entero 3) ]}
    = Raise (NameError (lit "z")).
Proof. by vm_compute. Qed.

(** C1 (the code departs from the claim): with [x] the only declared
    variable, the objective text [abs(x)] mentions the identifier [abs],
    which is no key of the binding; evaluation does not fail: the name is
    resolved from the builtins, the objective is built and the request goes
    on to invoke ipopt. *)
Theorem eval_resuelve_builtins
    (flotante_de_texto : str → option float)
    (aritmetica_flotante : PyEval.binop → numero → numero → outcome numero)
    (otros_builtins : str → bool)
    (resto : str → gmap str term → outcome term)
    (backend_nlp : str → model → outcome resultado) (tipo : sentido) :
  let externos :=
    python flotante_de_texto aritmetica_flotante otros_builtins resto backend_nlp in
  let self := NLP.Estado [lit "x"] (lit "abs(x)") tipo [] in
  ligadura (NLP.variables self) !! lit "abs" = None
  ∧ @py_eval externos (NLP.funcion_objetivo self) (ligadura (NLP.variables self))
    = Ok (TAbs (TVar (lit "x")))
  ∧ head (traza (@resolver externos (SolNLP self)))
    = Some (solve (lit "ipopt")
              (Model [] ∅ {[ lit "x" := Reals ]}
                 (Some (TAbs (TVar (lit "x")), tipo)) [])).
Proof.
  cbn zeta. split; [by vm_compute|].
  assert (Hev : @py_eval (python flotante_de_texto aritmetica_flotante otros_builtins
                            resto backend_nlp)
                  (lit "abs(x)") (ligadura [lit "x"]) = Ok (TAbs (TVar (lit "x"))))
    by (by vm_compute).
  split; [exact Hev|].
  cbn [resolver]. unfold NLP.resolver, NLP.construir_modelo, construir_desde, armar_desde.
  cbn [NLP.funcion_objetivo NLP.variables NLP.restricciones NLP.tipo_objetivo].
  rewrite Hev. cbn [evaluar_restricciones].
  unfold resolver_con, emit, lift, ret, bind.
  cbn [m_i m_params m_vars m_objetivo NLP.declarar].
  destruct (solver_solve _ _) as [r|e].
  - destruct (NLP.mostrar _ _ r) as [o t]. cbn. f_equal.
  - cbn. f_equal.
Qed.

(** ** The two default scenarios of the forms, run on the stand-ins *)

(** The furniture problem of the LP form: three rows, all valid; one call
    to glpk with three constraints; the values of the three elements are
    displayed. *)
Example lp_muebles :
  let param_names := parse_lista (lit "L, F, C, P") in
  let tabla (d t c : float) : gmap str float :=
    {[ lit "Desk" := d; lit "Table" := t; lit "Chairs" := c ]} in
  let filas :=
    [ Lineal.Fila (lit "L") menor_o_igual (Numero 48%float);
      Lineal.Fila (lit "F") menor_o_igual (Numero 20%float);
      Lineal.Fila (lit "C") menor_o_igual (Numero 8%float) ] in
  let self :=
    Lineal.Estado (parse_lista (lit "Desk, Table, Chairs"))
      {[ lit "L" := tabla 8%float 6%float 1%float;
         lit "F" := tabla 4%float 2%float 1.5%float;
         lit "C" := tabla 2%float 1.5%float 0.5%float;
         lit "P" := tabla 60%float 30%float 20%float ]}
      [ Lineal.Restriccion (lit "L") (lit "<=") 48%float;
        Lineal.Restriccion (lit "F") (lit "<=") 20%float;
        Lineal.Restriccion (lit "C") (lit "<=") 8%float ]
      (lit "P") maximize in
  let t := traza (resolver (H := Pruebas.externos) (SolLP self param_names)) in
  Lineal.parse_restricciones (H := Pruebas.externos) filas param_names
  = (Ok (Lineal.restricciones self), [])
  ∧ (fun ll => (ll.1, length (m_restricciones ll.2), snd <$> m_objetivo ll.2))
      <$> llamadas t
    = [(lit "glpk", 3%nat, Some maximize)]
  ∧ errores t = []
  ∧ (fst <$> valores_mostrados t) = [lit "Desk"; lit "Table"; lit "Chairs"].
Proof. by vm_compute. Qed.

(** The default problem of the MILP form with a backend that reports it
    infeasible: one call to glpk with five constraints, the failure report
    and the two diagnostic lines, and no value displayed. *)
Example milp_infactible :
  let externos :=
    python Pruebas.flotante_de_digitos Pruebas.sin_flotantes
      Pruebas.sin_builtins Pruebas.sin_resto
      (fun _ _ => Ok (Resultado (lit "ok") (lit "infeasible") 0%float (fun _ => 0%float))) in
  let self :=
    EstadoMixto (parse_lista (lit "x")) (parse_lista (lit "y, z"))
      (lit "x + 2*y + 3*z") minimize
      [ FilaExpr (lit "x + y") (lit "<=") 10%float;
        FilaExpr (lit "y + z") (lit ">=") 5%float;
        FilaExpr (lit "x") (lit ">=") 20%float;
        FilaExpr (lit "y") (lit ">=") 11%float;
        FilaExpr (lit "z") (lit "<=") 100%float ] in
  let t := traza (resolver (H := externos) (SolMILP self)) in
  (fun ll => (ll.1, length (m_restricciones ll.2), m_vars ll.2))
    <$> llamadas t
  = [(lit "glpk", 5%nat,
      {[ lit "x" := Integers; lit "y" := Reals; lit "z" := Reals ]})]
  ∧ drop 1 t
    = [ st_error SinSolucionOptima; st_write_estado (lit "ok");
        st_write_terminacion (lit "infeasible") ]
  ∧ valores_mostrados t = [].
Proof. by vm_compute. Qed.

(** What the modelling library refuses.  With no element the sum of a row
    is the [int] 0 and its comparison a [bool]; a parameter called [i]
    meets the index set; in MILP a variable called [objetivo] is no longer
    on the block that glpk receives. *)
Example lo_que_la_biblioteca_rechaza :
  let sin_elementos :=
    Lineal.Estado [] {[ lit "L" := ∅ ]}
      [Lineal.Restriccion (lit "L") (lit "<=") 48%float] (lit "L") maximize in
  let parametro_i :=
    Lineal.Estado [lit "Desk"] {[ lit "i" := {[ lit "Desk" := 8%float ]} ]}
      [] (lit "i") maximize in
  let variable_objetivo :=
    EstadoMixto [lit "x"] [lit "objetivo"] (lit "x + objetivo") minimize [] in
  resolver (H := Pruebas.externos) (SolLP sin_elementos [lit "L"]) = (Raise ValueError, [])
  ∧ resolver (H := Pruebas.externos) (SolIP parametro_i [lit "i"]) = (Raise RuntimeError, [])
  ∧ (fun ll => (ll.1, m_vars ll.2 !! lit "objetivo",
                MILP.en_el_modelo ll.2 !! lit "objetivo", MILP.en_el_modelo ll.2 !! lit "x"))
      <$> llamadas (traza (resolver (H := Pruebas.externos) (SolMILP variable_objetivo)))
    = [(lit "glpk", Some Reals, None, Some Integers)].
Proof. by vm_compute. Qed.

(** ** Further properties of the validator and of the binding *)

(** X1: [validar_parametros] never raises; it returns [True], and then
    reports nothing, exactly when every declared parameter has values for
    exactly the declared elements. *)
Theorem validar_parametros_correcto `{Externos} (self : Lineal.estado)
    (param_names : list str) :
  (∃ b, final (Lineal.validar_parametros self param_names) = Ok b)
  ∧ (Lineal.validar_parametros self param_names = (Ok true, [])
     ↔ Forall (fun n => ¬ incompleto self n) param_names)
  ∧ (final (Lineal.validar_parametros self param_names) = Ok true
     ↔ Forall (fun n => ¬ incompleto self n) param_names).
Proof.
  split; [|split].
  - destruct (validar_parametros_casos self param_names) as [->|[n ->]]; by eexists.
  - split; [|apply validar_parametros_completos].
    intros Hv. apply validar_parametros_true. by rewrite Hv.
  - split; [apply validar_parametros_true|].
    intros Hc. by rewrite (validar_parametros_completos self param_names Hc).
Qed.

(** X2: the binding handed to [eval] has exactly the declared names as
    keys, each bound to its own variable. *)
Theorem ligadura_nombres (nombres : list str) :
  dom (ligadura nombres) = list_to_set nombres
  ∧ ∀ v, ligadura nombres !! v
         = if bool_decide (v ∈ nombres) then Some (TVar v) else None.
Proof.
  unfold ligadura.
  assert (Hgen : ∀ l (d : gmap str term),
    dom (foldl (fun d v => <[v := TVar v]> d) d l) = list_to_set l ∪ dom d
    ∧ ∀ v, foldl (fun d v => <[v := TVar v]> d) d l !! v
           = if bool_decide (v ∈ l) then Some (TVar v) else d !! v).
  { induction l as [|x l IH]; intros d; cbn [foldl].
    - split; [by rewrite list_to_set_nil, (left_id_L ∅ (∪))|].
      intros v. rewrite bool_decide_false; [done|]. by inversion 1.
    - destruct (IH (<[x := TVar x]> d)) as [Hdom Hlook]. split.
      + rewrite Hdom, dom_insert_L, list_to_set_cons.
        by rewrite (assoc_L (∪)), (comm_L (∪) (list_to_set l) {[x]}).
      + intros v. rewrite Hlook.
        destruct (decide (v ∈ l)) as [Hv|Hv].
        * rewrite !bool_decide_true; [done| by right |done].
        * rewrite (bool_decide_false (v ∈ l)) by done.
          destruct (decide (x = v)) as [->|Hx].
          -- rewrite lookup_insert_eq, bool_decide_true; [done|by left].
          -- rewrite lookup_insert_ne by done.
             rewrite bool_decide_false; [done|].
             intros Hin. apply elem_of_cons in Hin as [->|Hin]; done. }
  destruct (Hgen nombres ∅) as [Hdom Hlook]. split.
  - by rewrite Hdom, dom_empty_L, (right_id_L ∅ (∪)).
  - intros v. rewrite Hlook. by rewrite lookup_empty.
Qed.

(** ** More on identifier lists *)

Lemma split_no_vacio (sep : N) (s : str) : split sep s ≠ [].
Proof.
  destruct s as [|c s]; simpl; [done|].
  destruct (c =? sep); [done|]. by destruct (split sep s).
Qed.

Lemma split_app (sep : N) (a b : str) :
  split sep (a ++ sep :: b) = split sep a ++ split sep b.
Proof.
  induction a as [|c a IH]; simpl.
  - by rewrite N.eqb_refl.
  - destruct (c =? sep); [by rewrite IH|].
    rewrite IH. pose proof (split_no_vacio sep a) as Hne.
    by destruct (split sep a).
Qed.

Lemma split_sin_separador (sep : N) (s : str) : sep ∉ s → split sep s = [s].
Proof.
  induction s as [|c s IH]; [done|].
  intros Hs. apply not_elem_of_cons in Hs as [Hc Hs]. simpl.
  destruct (c =? sep) eqn:E; [apply N.eqb_eq in E; congruence|].
  by rewrite (IH Hs).
Qed.

Lemma split_segmentos (sep : N) (s : str) : Forall (fun seg => sep ∉ seg) (split sep s).
Proof.
  induction s as [|c s IH]; simpl.
  - constructor; [apply not_elem_of_nil|constructor].
  - destruct (c =? sep) eqn:E.
    + constructor; [apply not_elem_of_nil|done].
    + apply N.eqb_neq in E.
      destruct (split sep s) as [|seg segs]; simpl.
      * constructor; [|constructor]. apply not_elem_of_cons. split; [congruence|].
        apply not_elem_of_nil.
      * inversion IH as [|? ? Hseg Hsegs]; subst. constructor; [|done].
        apply not_elem_of_cons. split; [congruence|done].
Qed.

(** X3: parsing distributes over the separator: the identifiers of
    [a + "," + b] are those of [a] followed by those of [b]. *)
Theorem parse_lista_concatena (a b : str) :
  parse_lista (a ++ coma :: b) = parse_lista a ++ parse_lista b.
Proof.
  rewrite !parse_lista_omap, split_app. apply omap_app.
Qed.

Lemma lstrip_vacio (s : str) :
  lstrip s = [] ↔ Forall (fun c => Py_UNICODE_ISSPACE c = true) s.
Proof.
  induction s as [|c s IH]; cbn [lstrip].
  - split; [constructor|done].
  - destruct (Py_UNICODE_ISSPACE c) eqn:E.
    + rewrite IH. split; [by constructor|by inversion 1].
    + split; [done|]. inversion 1; congruence.
Qed.

Lemma strip_vacio (s : str) :
  strip s = [] ↔ Forall (fun c => Py_UNICODE_ISSPACE c = true) s.
Proof.
  split.
  - intros Hs. apply lstrip_vacio.
    destruct (lstrip s) as [|c l] eqn:El; [done|].
    pose proof (strip_head s) as Hh. unfold strip in *. rewrite El in *.
    unfold rstrip in Hs.
    apply (f_equal reverse) in Hs. rewrite reverse_involutive in Hs.
    change (reverse []) with (@nil N) in Hs.
    apply lstrip_vacio in Hs. rewrite Forall_reverse in Hs.
    inversion Hs as [|? ? Hc _]; subst.
    pose proof (lstrip_head s c) as Hc'. rewrite El in Hc'.
    specialize (Hc' eq_refl). congruence.
  - intros Hs. apply lstrip_vacio in Hs. unfold strip. by rewrite Hs.
Qed.

Lemma segmento_vacio (item : str) :
  segmento item = None ↔ Forall (fun c => Py_UNICODE_ISSPACE c = true) item.
Proof.
  rewrite <- strip_vacio. unfold segmento.
  destruct (strip item); simpl; split; done.
Qed.

Lemma split_blancos (s : str) :
  Forall (Forall (fun c => Py_UNICODE_ISSPACE c = true)) (split coma s)
  ↔ Forall blanco_o_coma s.
Proof.
  induction s as [|c s IH]; simpl.
  - split; [constructor|]. intros _. by repeat constructor.
  - destruct (c =? coma) eqn:E.
    + apply N.eqb_eq in E. subst c. split.
      * intros Hs. inversion Hs; subst. constructor; [by right|by apply IH].
      * intros Hs. inversion Hs; subst. constructor; [constructor|by apply IH].
    + apply N.eqb_neq in E. pose proof (split_no_vacio coma s) as Hne.
      destruct (split coma s) as [|seg segs]; [done|]. split.
      * intros Hs. inversion Hs as [|? ? Hseg Hsegs]; subst.
        inversion Hseg; subst. constructor; [by left|].
        apply IH. by constructor.
      * intros Hs. inversion Hs as [|? ? Hc Hrest]; subst.
        apply IH in Hrest. inversion Hrest; subst.
        destruct Hc as [Hc|Hc]; [|done]. by repeat constructor.
Qed.

Lemma omap_vacio {A B} (f : A → option B) (l : list A) :
  omap f l = [] ↔ Forall (fun x => f x = None) l.
Proof.
  induction l as [|x l IH]; [split; [constructor|done]|].
  cbn [omap list_omap]. destruct (f x) eqn:E; simpl.
  - split; [done|]. inversion 1; congruence.
  - rewrite IH. split; [by constructor|by inversion 1].
Qed.

(** X4: [parse_lista] returns the empty list exactly for the texts made
    of whitespace and commas only, the empty text among them. *)
Theorem parse_lista_vacia (texto : str) :
  parse_lista texto = [] ↔ Forall blanco_o_coma texto.
Proof.
  rewrite parse_lista_omap, omap_vacio, <- split_blancos.
  apply Forall_iff. intros seg. apply segmento_vacio.
Qed.

(** An identifier that [parse_lista] reads back unchanged. *)
Lemma lstrip_id (s : str) :
  (∀ c, head s = Some c → Py_UNICODE_ISSPACE c = false) → lstrip s = s.
Proof.
  destruct s as [|c s]; [done|]. intros Hc. simpl. by rewrite (Hc c).
Qed.

Lemma strip_id (s : str) :
  (∀ c, head s = Some c → Py_UNICODE_ISSPACE c = false) →
  (∀ c, last s = Some c → Py_UNICODE_ISSPACE c = false) →
  strip s = s.
Proof.
  intros Hh Hl. unfold strip, rstrip. rewrite (lstrip_id s Hh).
  rewrite lstrip_id; [apply reverse_involutive|].
  intros c Hc. apply Hl. by rewrite <- head_reverse.
Qed.

Lemma replace_id (s : str) : espacio ∉ s → replace espacio guion_bajo s = s.
Proof.
  induction s as [|c s IH]; [done|]. intros Hs.
  apply not_elem_of_cons in Hs as [Hc Hs]. simpl.
  destruct (c =? espacio) eqn:E; [apply N.eqb_eq in E; congruence|].
  by rewrite (IH Hs).
Qed.

Lemma segmento_id (id : str) : limpio id → segmento id = Some id.
Proof.
  intros (Hne & Hesp & Hh & Hl). unfold segmento.
  rewrite (strip_id id Hh Hl), (replace_id id Hesp).
  by destruct id.
Qed.

Lemma parse_lista_unir (ids : list str) :
  Forall (fun id => limpio id ∧ coma ∉ id) ids → parse_lista (unir ids) = ids.
Proof.
  induction 1 as [|id resto [Hid Hcoma] Hresto IH]; [done|].
  destruct resto as [|id' resto].
  - cbn [unir]. rewrite parse_lista_omap, (split_sin_separador _ _ Hcoma).
    cbn [omap list_omap]. by rewrite (segmento_id id Hid).
  - change (unir (id :: id' :: resto)) with (id ++ coma :: unir (id' :: resto)).
    rewrite parse_lista_omap, split_app, omap_app, <- !parse_lista_omap, IH.
    rewrite parse_lista_omap, (split_sin_separador _ _ Hcoma).
    cbn [omap list_omap]. by rewrite (segmento_id id Hid).
Qed.

Lemma strip_sin (x : N) (s : str) : x ∉ s → x ∉ strip s.
Proof.
  intros Hx Hin. apply Hx.
  unfold strip in Hin.
  destruct (rstrip_prefijo (lstrip s)) as [q Hq].
  destruct (lstrip_sufijo s) as [p Hp].
  rewrite Hp, Hq. apply elem_of_app. right. apply elem_of_app. by left.
Qed.

Lemma segmento_sin_coma (item id : str) :
  coma ∉ item → segmento item = Some id → coma ∉ id.
Proof.
  unfold segmento. destruct (truthy (strip item)); [|done].
  intros Hc [= <-] Hin. apply (strip_sin _ _ Hc).
  unfold replace in Hin. apply list_elem_of_fmap in Hin as (c & Hcc & Hin).
  destruct (c =? espacio) eqn:E; [done|]. by subst c.
Qed.

(** X5: no identifier that [parse_lista] emits contains a comma, and the
    emitted list is a fixed point of the parser: joined with commas and
    parsed again, it comes back unchanged. *)
Theorem parse_lista_punto_fijo (texto : str) :
  Forall (fun id => coma ∉ id) (parse_lista texto)
  ∧ parse_lista (unir (parse_lista texto)) = parse_lista texto.
Proof.
  assert (Hsin : Forall (fun id => coma ∉ id) (parse_lista texto)).
  { rewrite parse_lista_omap. apply Forall_forall. intros id Hid.
    apply list_elem_of_omap in Hid as (item & Hitem & Hseg).
    pose proof (split_segmentos coma texto) as Hs.
    rewrite Forall_forall in Hs. by apply (segmento_sin_coma item id); [apply Hs|]. }
  split; [exact Hsin|].
  apply parse_lista_unir. apply Forall_forall. intros id Hid. split.
  - rewrite parse_lista_omap in Hid.
    apply list_elem_of_omap in Hid as (item & _ & Hseg).
    by apply (segmento_limpio item).
  - rewrite Forall_forall in Hsin. by apply Hsin.
Qed.

(** ** Every row is kept or reported *)

Section cuenta.
Context `{Externos}.

Lemma normalizar_o_diagnostico (param_names : list str) (entradas : list Lineal.fila) :
  ∀ idx,
    (length (omap (normalizar param_names) entradas)
     + length (diagnosticos param_names idx entradas) = length entradas)%nat.
Proof.
  induction entradas as [|restr resto IH]; intros idx; [done|].
  cbn [omap list_omap diagnosticos length]. rewrite length_app.
  specialize (IH (S idx)).
  pose proof (diagnostico_no_valida param_names idx restr) as Hd.
  destruct (normalizar param_names restr) as [r|] eqn:En.
  - rewrite (proj2 Hd) by eauto. cbn. lia.
  - destruct (diagnostico param_names idx restr) as [m|] eqn:Ed.
    + cbn. lia.
    + destruct (proj1 Hd eq_refl) as [? ?]. done.
Qed.

Lemma normalizar_parametro (param_names : list str) (restr : Lineal.fila) (r : Lineal.restriccion) :
  normalizar param_names restr = Some r → Lineal.parametro r = Lineal.f_parametro restr.
Proof.
  unfold normalizar. case_bool_decide; [|done].
  destruct (Lineal.operadores_validos !! _); [|done]. simpl.
  destruct (Lineal.py_float _); [|done]. simpl. by intros [= <-].
Qed.

Lemma errores_st_error (ms : list mensaje) : errores (st_error <$> ms) = ms.
Proof. unfold errores. induction ms as [|m ms IH]; [done|]. cbn. by rewrite IH. Qed.

(** X6: [parse_restricciones] never raises and accounts for every row:
    the rows it keeps and the reports it emits add up to the rows it was
    given; it emits nothing but these reports, and the kept rows carry
    their parameters in input order. *)
Theorem parse_restricciones_cuenta (restricciones_input : list Lineal.fila)
    (param_names : list str) :
  let corrida := Lineal.parse_restricciones restricciones_input param_names in
  ∃ restricciones,
    final corrida = Ok restricciones
    ∧ (length restricciones + length (errores (traza corrida))
        = length restricciones_input)%nat
    ∧ traza corrida = st_error <$> errores (traza corrida)
    ∧ (Lineal.parametro <$> restricciones)
         `sublist_of` (Lineal.f_parametro <$> restricciones_input).
Proof.
  cbn zeta. unfold Lineal.parse_restricciones. rewrite parse_bucle_spec.
  cbn [final traza fst snd app]. rewrite errores_st_error.
  eexists. split; [done|]. split; [apply normalizar_o_diagnostico|]. split; [done|].
  induction restricciones_input as [|restr resto IH]; [done|].
  cbn [omap list_omap fmap list_fmap].
  destruct (normalizar param_names restr) as [r|] eqn:En; simpl.
  - rewrite (normalizar_parametro _ _ _ En). by apply sublist_skip.
  - by apply sublist_cons.
Qed.

End cuenta.

(** ** A backend call that raises *)

Section fallo_backend.
Context `{Externos}.

(** A request either makes no backend call, or is one call to the backend
    of its class followed by the interpretation of the result. *)
Lemma resolver_casos (s : solicitud) :
  llamadas (traza (resolver s)) = []
  ∨ ∃ m, resolver s
              = bind (resolver_con (backend (clase s)) m) (interpretar s m).
Proof.
  rewrite resolver_armado.
  destruct (armado_casos s) as [(m & -> & _)|[(msg & ->)|(e & ->)]];
    [right|left; reflexivity..].
  exists m. by rewrite bind_ret_l.
Qed.

(** X7: nothing catches an exception of [solver.solve]: when the backend
    call of a solve request raises, the request ends with that exception
    right after the call, and nothing is displayed. *)
Theorem fallo_del_backend (s : solicitud) (m : model) (e : exn) :
  (backend (clase s), m) ∈ llamadas (traza (resolver s)) →
  solver_solve (backend (clase s)) m = Raise e →
  resolver s = (Raise e, [solve (backend (clase s)) m]).
Proof.
  intros Hin Hs.
  destruct (resolver_casos s) as [Hnil|[m' Hm']].
  { rewrite Hnil in Hin. by inversion Hin. }
  rewrite Hm' in Hin |- *.
  unfold resolver_con, emit, lift, bind in Hin |- *.
  destruct (solver_solve (backend (clase s)) m') as [r|e'] eqn:Hs'.
  - destruct (interpretar s m' r) as [o t] eqn:Hi.
    cbn in Hin. apply elem_of_cons in Hin as [Heq|Hin].
    + injection Heq as <-. congruence.
    + pose proof (llamadas_interpretar s m' r) as Hll. rewrite Hi in Hll.
      cbn in Hll. rewrite Hll in Hin. by inversion Hin.
  - cbn in Hin. apply list_elem_of_singleton in Hin. injection Hin as <-.
    rewrite Hs in Hs'. by injection Hs' as <-.
Qed.

End fallo_backend.

(** The hypotheses of [fallo_del_backend] hold for a one-variable NLP request
    and a backend that cannot be run. *)
Lemma fallo_del_backend_witness :
  ∃ m,
    resolver (H := SesionDePrueba.externos_sin_backend)
      (SolNLP (NLP.Estado [lit "x"] (lit "x") minimize []))
    = (Raise ApplicationError, [solve (lit "ipopt") m]).
Proof.
  eexists.
  apply (fallo_del_backend (H := SesionDePrueba.externos_sin_backend)
           (SolNLP (NLP.Estado [lit "x"] (lit "x") minimize []))).
  - vm_compute. apply list_elem_of_here.
  - reflexivity.
Defined.

(** ** Runs of the forms *)

Lemma bindF_continua {A B} (m : F A) (k : A → F B) (u u2 : gset str) (b : B)
    (t : list salida) :
  bindF m k u = (Continua b, u2, t) →
  ∃ a u1 t1 t2,
    m u = (Continua a, u1, t1) ∧ k a u1 = (Continua b, u2, t2) ∧ t = t1 ++ t2.
Proof.
  unfold bindF. destruct (m u) as [[[a|e|] u1] t1]; [|done..].
  destruct (k a u1) as [[r u'] t'] eqn:E. intros [= -> -> <-].
  by exists a, u1, t1, t'.
Qed.

Lemma bindF_paso {A B} (m : F A) (k : A → F B) (u u1 : gset str) (a : A) :
  m u = (Continua a, u1, []) → bindF m k u = k a u1.
Proof. intros Hm. unfold bindF. rewrite Hm. by destruct (k a u1) as [[r u'] t']. Qed.

Lemma bindF_falla {A B} (m : F A) (k : A → F B) (u u1 : gset str) (e : fallo)
    (t : list salida) :
  m u = (Falla e, u1, t) → bindF m k u = (Falla e, u1, t).
Proof. intros Hm. unfold bindF. by rewrite Hm. Qed.

Lemma registrar_continua (w : widget) (u u' : gset str) (x : unit) (t : list salida) :
  registrar w u = (Continua x, u', t) →
  t = [] ∧ (u ⊆ u') ∧ ∀ key, w = Clave key → (key ∉ u) ∧ u' = {[key]} ∪ u.
Proof.
  unfold registrar. destruct w as [key|r].
  - case_bool_decide as Hk; [done|]. intros [= _ <- <-].
    split; [done|]. split; [apply union_subseteq_r|].
    by intros ? [= <-].
  - intros [= _ <- <-]. done.
Qed.

Lemma registrar_libre (key : str) (u : gset str) :
  key ∉ u → registrar (Clave key) u = (Continua tt, {[key]} ∪ u, []).
Proof. intros Hk. unfold registrar. by rewrite bool_decide_false. Qed.

Lemma registrar_rotulo (r : rotulo) (u : gset str) :
  registrar (Rotulo r) u = (Continua tt, u, []).
Proof. done. Qed.

Section inversiones.
Context `{Sesion}.

Lemma st_text_input_continua (w : widget) (value : str) (u u' : gset str) (x : str)
    (t : list salida) :
  st_text_input w value u = (Continua x, u', t) →
  x = valor_texto w value ∧ t = [] ∧ registrar w u = (Continua tt, u', []).
Proof.
  unfold st_text_input. intros Hb.
  apply bindF_continua in Hb as ([] & u1 & t1 & t2 & Hr & [= <- <- <-] & ->).
  destruct (registrar_continua _ _ _ _ _ Hr) as (-> & _). done.
Qed.

Lemma st_number_input_continua (w : widget) (value : float) (u u' : gset str) (x : float)
    (t : list salida) :
  st_number_input w value u = (Continua x, u', t) →
  x = valor_numero w value ∧ t = [] ∧ registrar w u = (Continua tt, u', []).
Proof.
  unfold st_number_input. intros Hb.
  apply bindF_continua in Hb as ([] & u1 & t1 & t2 & Hr & [= <- <- <-] & ->).
  destruct (registrar_continua _ _ _ _ _ Hr) as (-> & _). done.
Qed.

Lemma st_number_input_int_continua (w : widget) (min_value value : nat)
    (u u' : gset str) (x : nat) (t : list salida) :
  st_number_input_int w min_value value u = (Continua x, u', t) →
  x = valor_entero w min_value value ∧ t = [] ∧ registrar w u = (Continua tt, u', []).
Proof.
  unfold st_number_input_int. intros Hb.
  apply bindF_continua in Hb as ([] & u1 & t1 & t2 & Hr & [= <- <- <-] & ->).
  destruct (registrar_continua _ _ _ _ _ Hr) as (-> & _). done.
Qed.

Lemma st_selectbox_continua (w : widget) (options : list str) (index : nat)
    (u u' : gset str) (x : str) (t : list salida) :
  st_selectbox w options index u = (Continua x, u', t) →
  x = valor_opcion w options index ∧ t = [] ∧ registrar w u = (Continua tt, u', [])
  ∧ (options ≠ [] → x ∈ options).
Proof.
  unfold st_selectbox. case_bool_decide; [done|]. intros Hb.
  apply bindF_continua in Hb as ([] & u1 & t1 & t2 & Hr & [= <- <- <-] & ->).
  destruct (registrar_continua _ _ _ _ _ Hr) as (-> & _).
  split; [done|]. split; [done|]. split; [done|]. apply valor_opcion_ofrecida.
Qed.

Lemma st_button_continua (w : widget) (u u' : gset str) (x : bool) (t : list salida) :
  st_button w u = (Continua x, u', t) →
  x = pulsado w ∧ t = [] ∧ registrar w u = (Continua tt, u', []).
Proof.
  unfold st_button. intros Hb.
  apply bindF_continua in Hb as ([] & u1 & t1 & t2 & Hr & [= <- <- <-] & ->).
  destruct (registrar_continua _ _ _ _ _ Hr) as (-> & _). done.
Qed.

Lemma indexar_continua {A} (l : list A) (i : nat) (u u' : gset str) (x : A)
    (t : list salida) :
  indexar l i u = (Continua x, u', t) → l !! i = Some x ∧ u' = u ∧ t = [].
Proof.
  unfold indexar. destruct (l !! i) as [y|]; [|done]. by intros [= -> -> <-].
Qed.

(** A widget whose registration goes through returns the value of the
    session. *)
Lemma st_text_input_paso (w : widget) (value : str) (u u1 : gset str) :
  registrar w u = (Continua tt, u1, []) →
  st_text_input w value u = (Continua (valor_texto w value), u1, []).
Proof. intros Hr. unfold st_text_input. by rewrite (bindF_paso _ _ _ _ _ Hr). Qed.

Lemma st_number_input_paso (w : widget) (value : float) (u u1 : gset str) :
  registrar w u = (Continua tt, u1, []) →
  st_number_input w value u = (Continua (valor_numero w value), u1, []).
Proof. intros Hr. unfold st_number_input. by rewrite (bindF_paso _ _ _ _ _ Hr). Qed.

Lemma st_number_input_int_paso (w : widget) (min_value value : nat) (u u1 : gset str) :
  registrar w u = (Continua tt, u1, []) →
  st_number_input_int w min_value value u
  = (Continua (valor_entero w min_value value), u1, []).
Proof. intros Hr. unfold st_number_input_int. by rewrite (bindF_paso _ _ _ _ _ Hr). Qed.

Lemma st_selectbox_paso (w : widget) (options : list str) (index : nat)
    (u u1 : gset str) :
  (options = [] ∨ (index < length options)%nat) →
  registrar w u = (Continua tt, u1, []) →
  st_selectbox w options index u = (Continua (valor_opcion w options index), u1, []).
Proof.
  intros Hi Hr. unfold st_selectbox.
  rewrite bool_decide_false by (intros [Hne Hl]; destruct Hi; [done|lia]).
  by rewrite (bindF_paso _ _ _ _ _ Hr).
Qed.

Lemma st_button_paso (w : widget) (u u1 : gset str) :
  registrar w u = (Continua tt, u1, []) →
  st_button w u = (Continua (pulsado w), u1, []).
Proof. intros Hr. unfold st_button. by rewrite (bindF_paso _ _ _ _ _ Hr). Qed.

(** The rows of a form, when every row that completes shows nothing and
    satisfies [P]. *)
Lemma filas_de_continua {A} (fila : nat → F A) (P : A → Prop) :
  (∀ idx u f u' t, fila idx u = (Continua f, u', t) → t = [] ∧ P f) →
  ∀ indices acc u filas u' t,
    filas_de fila indices acc u = (Continua filas, u', t) →
    t = [] ∧ ∃ nuevas,
      filas = acc ++ nuevas ∧ length nuevas = length indices ∧ Forall P nuevas.
Proof.
  intros Hfila. induction indices as [|idx resto IH]; intros acc u filas u' t.
  - intros [= <- <- <-]. split; [done|]. exists []. by rewrite app_nil_r.
  - cbn [filas_de]. intros Hb.
    apply bindF_continua in Hb as (f & u1 & t1 & t2 & Hf & Hresto & ->).
    destruct (Hfila _ _ _ _ _ Hf) as [-> Pf].
    destruct (IH _ _ _ _ _ Hresto) as (-> & nuevas & -> & Hlen & Hnuevas).
    split; [done|]. exists (f :: nuevas).
    split; [by rewrite <- app_assoc|]. split; [simpl; by rewrite Hlen|].
    by constructor.
Qed.

End inversiones.

(** ** The forms of LP and IP *)

(** Closes a goal [key ∉ usadas] on concrete keys. *)
Ltac clave_libre := apply (bool_decide_unpack _); vm_compute; exact I.

Section lineales.
Context `{Externos} `{Sesion}.

Lemma poblar_elementos_continua (v : variante) (pname : str) (elementos : list str) :
  ∀ valores u valores' u' t,
    poblar_elementos v pname elementos valores u = (Continua valores', u', t) →
    t = [] ∧ (u ⊆ u')
    ∧ dom valores' = dom valores ∪ list_to_set elementos
    ∧ NoDup elementos
    ∧ ∀ el, el ∈ elementos →
         clave_valor v pname el ∈ u' ∧ clave_valor v pname el ∉ u.
Proof.
  induction elementos as [|el resto IH]; intros valores u valores' u' t.
  - intros [= <- <- <-]. split; [done|]. split; [done|].
    split; [by rewrite list_to_set_nil, (right_id_L ∅ (∪))|].
    split; [constructor|]. intros el Hel. by inversion Hel.
  - cbn [poblar_elementos]. intros Hb.
    apply bindF_continua in Hb as (val & u1 & t1 & t2 & Hn & Hresto & ->).
    apply st_number_input_continua in Hn as (_ & -> & Hr).
    destruct (registrar_continua _ _ _ _ _ Hr) as (_ & Hsub & Hkey).
    destruct (Hkey _ eq_refl) as [Hlibre ->].
    destruct (IH _ _ _ _ _ Hresto) as (-> & Hsub' & Hdom & Hnodup & Hclaves).
    fold (clave_valor v pname el) in *.
    assert (Hen : clave_valor v pname el ∈ u').
    { apply Hsub'. apply elem_of_union. left. by apply elem_of_singleton. }
    split; [done|]. split; [by etrans|]. split.
    { rewrite Hdom, dom_insert_L, list_to_set_cons.
      by rewrite (assoc_L (∪)), (comm_L (∪) (dom valores) {[el]}). }
    split.
    { constructor; [|done]. intros Hel. destruct (Hclaves _ Hel) as [_ Hno].
      apply Hno. apply elem_of_union. left. by apply elem_of_singleton. }
    intros el' Hel'. apply elem_of_cons in Hel' as [->|Hel']; [done|].
    destruct (Hclaves _ Hel') as [Hin Hno]. split; [done|].
    intros Hu. apply Hno. apply elem_of_union. by right.
Qed.

Lemma poblar_continua (v : variante) (elementos param_names : list str) :
  ∀ parametros u parametros' u' t,
    poblar v elementos param_names parametros u = (Continua parametros', u', t) →
    t = [] ∧ (u ⊆ u')
    ∧ (∀ pname, pname ∈ param_names →
          ∃ valores, parametros' !! pname = Some valores
                          ∧ dom valores = list_to_set elementos)
    ∧ (∀ pname, pname ∉ param_names → parametros' !! pname = parametros !! pname)
    ∧ (param_names ≠ [] → NoDup elementos)
    ∧ ∀ el, el ∈ elementos →
         NoDup param_names
         ∧ ∀ pname, pname ∈ param_names →
              clave_valor v pname el ∈ u' ∧ clave_valor v pname el ∉ u.
Proof.
  induction param_names as [|pname resto IH]; intros parametros u parametros' u' t.
  - intros [= <- <- <-]. split; [done|]. split; [done|].
    split; [intros p Hp; by inversion Hp|]. split; [done|]. split; [done|].
    intros el _. split; [constructor|]. intros p Hp. by inversion Hp.
  - cbn [poblar]. intros Hb.
    apply bindF_continua in Hb as (valores & u1 & t1 & t2 & Hel & Hresto & ->).
    apply poblar_elementos_continua in Hel as (-> & Hsub & Hdom & Hnodup & Hclaves).
    destruct (IH _ _ _ _ _ Hresto) as (-> & Hsub' & Hdentro & Hfuera & _ & Hnombres).
    split; [done|]. split; [by etrans|]. split.
    { intros p Hp. destruct (decide (p ∈ resto)) as [Hr|Hr]; [by apply Hdentro|].
      apply elem_of_cons in Hp as [->|Hp]; [|done].
      rewrite (Hfuera _ Hr), lookup_insert_eq. exists valores. split; [done|].
      by rewrite Hdom, dom_empty_L, (left_id_L ∅ (∪)). }
    split.
    { intros p Hp. apply not_elem_of_cons in Hp as [Hne Hp].
      rewrite (Hfuera _ Hp). by rewrite lookup_insert_ne. }
    split; [done|].
    intros el Hel. destruct (Hnombres _ Hel) as [Hnd Hresto'].
    destruct (Hclaves _ Hel) as [Hen Hno]. split.
    { constructor; [|done]. intros Hp. destruct (Hresto' _ Hp) as [_ Hno']. done. }
    intros p Hp. apply elem_of_cons in Hp as [->|Hp].
    + split; [by apply Hsub'|done].
    + destruct (Hresto' _ Hp) as [Hin Hno']. split; [done|].
      intros Hu. apply Hno'. by apply Hsub.
Qed.

Lemma fila_lineal_continua (v : variante) (param_names : list str) (idx : nat)
    (u u' : gset str) (f : Lineal.fila) (t : list salida) :
  fila_lineal v param_names idx u = (Continua f, u', t) →
  t = [] ∧ (param_names ≠ [] ∧ fila_valida param_names f).
Proof.
  unfold fila_lineal. intros Hb.
  apply bindF_continua in Hb as (def_param & u1 & t1 & t2 & Hdp & Hb & ->).
  assert (Hne : param_names <> [] /\ t1 = []).
  { destruct (restricciones_default v !! idx) as [[[p op] x]|].
    - case_bool_decide as Hp.
      + injection Hdp as <- <- <-. split; [|done]. intros ->. by inversion Hp.
      + apply indexar_continua in Hdp as (Hl & _ & ->). split; [|done]. by intros ->.
    - apply indexar_continua in Hdp as (Hl & _ & ->). split; [|done]. by intros ->. }
  destruct Hne as [Hne ->].
  apply bindF_continua in Hb as (def_op & u2 & t2' & t3 & Hdo & Hb & ->).
  assert (t2' = []) as ->.
  { destruct (restricciones_default v !! idx) as [[[p op] x]|].
    - by injection Hdo as <- <- <-.
    - by apply indexar_continua in Hdo as (_ & _ & ->). }
  apply bindF_continua in Hb as (parametro & u3 & t3' & t4 & Hpar & Hb & ->).
  apply st_selectbox_continua in Hpar as (_ & -> & _ & Hpar).
  apply bindF_continua in Hb as (operador & u4 & t4' & t5 & Hop & Hb & ->).
  apply st_selectbox_continua in Hop as (_ & -> & _ & Hop).
  apply bindF_continua in Hb as (valor & u5 & t5' & t6 & Hval & Hb & ->).
  apply st_number_input_continua in Hval as (_ & -> & _).
  injection Hb as <- <- <-.
  split; [done|]. split; [done|]. split; [by apply Hpar|]. split; [by apply Hop|].
  by eexists.
Qed.

Lemma filas_validas (param_names : list str) (entradas : list Lineal.fila) :
  Forall (fila_valida param_names) entradas →
  ∀ idx,
    diagnosticos param_names idx entradas = []
    ∧ length (omap (normalizar param_names) entradas) = length entradas
    ∧ Forall (fun r => Lineal.parametro r ∈ param_names ∧ Lineal.operador r ∈ canonicos)
         (omap (normalizar param_names) entradas).
Proof.
  induction 1 as [|restr resto Hv _ IH]; intros idx; [by repeat split|].
  destruct (IH (S idx)) as (Hd & Hlen & Hrs).
  cbn [diagnosticos omap list_omap].
  pose proof (proj1 (normalizar_valida param_names restr) Hv) as [r Hr].
  rewrite (proj2 (diagnostico_no_valida param_names idx restr)) by eauto.
  rewrite Hr, Hd. cbn. split; [done|]. split; [by rewrite Hlen|].
  constructor; [|done].
  unfold normalizar in Hr. case_bool_decide as Hp; [|done].
  destruct (Lineal.operadores_validos !! _) as [c|] eqn:Ec; [|done]. simpl in Hr.
  destruct (Lineal.py_float _); [|done]. injection Hr as <-. simpl.
  split; [done|]. by eapply operadores_validos_canonico.
Qed.

(** What a linear form that completes has collected. *)
Lemma formulario_lineal_continua (v : variante) (u u' : gset str) (s : solicitud)
    (t : list salida) :
  formulario_lineal v u = (Continua s, u', t) →
  t = []
  ∧ ∃ self param_names,
       s = v_solicitud v self param_names
       ∧ Lineal.elementos self
          = parse_lista (valor_texto (Rotulo NombresDeElementos) (elementos_default v))
       ∧ param_names
          = parse_lista (valor_texto (Rotulo NombresDeParametros) (parametros_default v))
       ∧ param_names ≠ []
       ∧ NoDup (Lineal.elementos self)
       ∧ (Lineal.elementos self ≠ [] → NoDup param_names)
       ∧ Forall (fun n => ¬ incompleto self n) param_names
       ∧ Lineal.param_objetivo self ∈ param_names
       ∧ Lineal.tipo_objetivo self = sentido_de_opcion (valor_opcion (w_tipo v) sentidos 0)
       ∧ length (Lineal.restricciones self)
          = valor_entero (w_num_restr v) 1 (num_restr_default v)
       ∧ Forall (fun r => Lineal.parametro r ∈ param_names
                           ∧ Lineal.operador r ∈ canonicos)
            (Lineal.restricciones self).
Proof.
  unfold formulario_lineal. intros Hb.
  apply bindF_continua in Hb as (elementos_input & u1 & t1 & t1' & He & Hb & ->).
  apply st_text_input_continua in He as (-> & -> & _).
  apply bindF_continua in Hb as (parametros_input & u2 & t2 & t2' & Hp & Hb & ->).
  apply st_text_input_continua in Hp as (-> & -> & _).
  set (elementos := parse_lista (valor_texto (Rotulo NombresDeElementos) _)) in *.
  set (param_names := parse_lista (valor_texto (Rotulo NombresDeParametros) _)) in *.
  apply bindF_continua in Hb as (parametros & u3 & t3 & t3' & Hpob & Hb & ->).
  apply poblar_continua in Hpob as (-> & _ & Hdentro & _ & Hnd_el & Hnd_par).
  apply bindF_continua in Hb as (param_objetivo & u4 & t4 & t4' & Hobj & Hb & ->).
  apply st_selectbox_continua in Hobj as (_ & -> & _ & Hobj).
  apply bindF_continua in Hb as (objetivo_input & u5 & t5 & t5' & Htipo & Hb & ->).
  apply st_selectbox_continua in Htipo as (-> & -> & _ & _).
  apply bindF_continua in Hb as (num_restr & u6 & t6 & t6' & Hnum & Hb & ->).
  apply st_number_input_int_continua in Hnum as (-> & -> & _).
  pose proof (valor_entero_min (w_num_restr v) 1 (num_restr_default v)) as Hmin.
  set (num_restr := valor_entero (w_num_restr v) 1 (num_restr_default v)) in *.
  apply bindF_continua in Hb as (restricciones_input & u7 & t7 & t7' & Hfilas & Hb & ->).
  apply (filas_de_continua _ (fun f => param_names <> [] /\ fila_valida param_names f))
    in Hfilas as (-> & nuevas & -> & Hlen & Hnuevas);
    [|intros idx u0 f u0' t0; apply fila_lineal_continua].
  rewrite length_seq in Hlen. cbn [app] in Hb.
  assert (Hne : param_names <> []).
  { destruct nuevas as [|f nuevas]; [simpl in Hlen; lia|].
    inversion Hnuevas as [|? ? [Hne _] _]; by subst. }
  assert (Hvalidas : Forall (fila_valida param_names) nuevas).
  { eapply Forall_impl; [exact Hnuevas|]. by intros f [_ Hf]. }
  destruct (filas_validas _ _ Hvalidas 0%nat) as (Hd & Hlen' & Hrs).
  apply bindF_continua in Hb as (restricciones & u8 & t8 & t8' & Hparse & Hb & ->).
  unfold Lineal.parse_restricciones in Hparse.
  rewrite parse_bucle_spec in Hparse. rewrite !app_nil_l in Hparse.
  rewrite Hd in Hparse. cbn in Hparse.
  injection Hparse as <- <- <-. injection Hb as <- <- <-.
  split; [done|]. eexists _, param_names. split; [done|].
  cbn [Lineal.elementos Lineal.param_objetivo Lineal.restricciones Lineal.tipo_objetivo].
  split; [done|]. split; [done|]. split; [done|]. split; [by apply Hnd_el|].
  split.
  { intros Hel. destruct elementos as [|el ?] eqn:Eel; [done|].
    apply (Hnd_par el). by left. }
  split.
  { apply Forall_forall. intros n Hn. unfold incompleto.
    cbn [Lineal.parametros Lineal.elementos].
    destruct (Hdentro _ Hn) as (valores & -> & Hdom). simpl. intros Hx. by apply Hx. }
  split; [by apply Hobj|]. split; [done|]. split; [by rewrite Hlen', Hlen|]. done.
Qed.

Lemma st_text_input_rotulo (r : rotulo) (value : str) (u : gset str) :
  st_text_input (Rotulo r) value u = (Continua (valor_texto (Rotulo r) value), u, []).
Proof. done. Qed.

Lemma st_number_input_casos (key : str) (value : float) (u : gset str) :
  ((key ∉ u) ∧ st_number_input (Clave key) value u
              = (Continua (valor_numero (Clave key) value), {[key]} ∪ u, []))
  ∨ (key ∈ u ∧ st_number_input (Clave key) value u
                = (Falla (DuplicateWidgetID key), u, [])).
Proof.
  unfold st_number_input, bindF, registrar.
  case_bool_decide; [right|left]; done.
Qed.

Lemma poblar_elementos_casos (v : variante) (pname : str) (elementos : list str) :
  ∀ valores u,
    (∃ valores' u', poblar_elementos v pname elementos valores u
                         = (Continua valores', u', []))
    ∨ ∃ el u', el ∈ elementos
         ∧ poblar_elementos v pname elementos valores u
            = (Falla (DuplicateWidgetID (clave_valor v pname el)), u', []).
Proof.
  induction elementos as [|el resto IH]; intros valores u.
  - left. by eexists _, _.
  - cbn [poblar_elementos]. fold (clave_valor v pname el).
    destruct (st_number_input_casos (clave_valor v pname el)
                (default 1%float (default ∅ (param_values_default v !! pname) !! el)) u)
      as [[_ Hn]|[_ Hn]].
    + rewrite (bindF_paso _ _ _ _ _ Hn).
      destruct (IH (<[el := valor_numero (Clave (clave_valor v pname el))
                           (default 1%float
                              (default ∅ (param_values_default v !! pname) !! el))]> valores)
                  ({[clave_valor v pname el]} ∪ u))
        as [(valores' & u' & ->)|(el' & u' & Hel' & ->)].
      * left. by eexists _, _.
      * right. exists el', u'. split; [by right|done].
    + right. exists el, u. split; [by left|]. by rewrite (bindF_falla _ _ _ _ _ _ Hn).
Qed.

Lemma poblar_casos (v : variante) (elementos param_names : list str) :
  ∀ parametros u,
    (∃ parametros' u', poblar v elementos param_names parametros u
                            = (Continua parametros', u', []))
    ∨ ∃ pname el u', pname ∈ param_names ∧ el ∈ elementos
         ∧ poblar v elementos param_names parametros u
            = (Falla (DuplicateWidgetID (clave_valor v pname el)), u', []).
Proof.
  induction param_names as [|pname resto IH]; intros parametros u.
  - left. by eexists _, _.
  - cbn [poblar].
    destruct (poblar_elementos_casos v pname elementos ∅ u)
      as [(valores & u1 & Hv)|(el & u1 & Hel & Hv)].
    + rewrite (bindF_paso _ _ _ _ _ Hv).
      destruct (IH (<[pname := valores]> parametros) u1)
        as [(parametros' & u' & ->)|(pname' & el & u' & Hp & Hel & ->)].
      * left. by eexists _, _.
      * right. exists pname', el, u'. split; [by right|done].
    + right. exists pname, el, u1. split; [by left|]. split; [done|].
      by rewrite (bindF_falla _ _ _ _ _ _ Hv).
Qed.

Lemma fila_lineal_sin_parametros (v : variante) (idx : nat) (u : gset str) :
  fila_lineal v [] idx u = (Falla IndexError, u, []).
Proof.
  unfold fila_lineal.
  destruct (restricciones_default v !! idx) as [[[p op] x]|]; [|done].
  rewrite bool_decide_false; [done|]. by inversion 1.
Qed.

(** X8: when the text of the parameter names yields no identifier, the
    pages of LP and IP raise [IndexError], at [param_names[0]] in the first
    constraint row (the form has at least one row), before anything is
    parsed, validated or solved, and with nothing shown. *)
Theorem sin_parametros (v : variante) :
  v = variante_LP ∨ v = variante_IP →
  parse_lista (valor_texto (Rotulo NombresDeParametros) (parametros_default v)) = [] →
  ∃ u', interfaz_lineal v ∅ = (Falla IndexError, u', []).
Proof.
  intros Hv Hnames.
  pose proof (valor_entero_min (w_num_restr v) 1 (num_restr_default v)) as Hmin.
  enough (Hform : exists u', formulario_lineal v ∅ = (Falla IndexError, u', [])).
  { destruct Hform as (u1 & Hform). exists u1.
    unfold interfaz_lineal. by rewrite (bindF_falla _ _ _ _ _ _ Hform). }
  unfold formulario_lineal.
  rewrite (bindF_paso _ _ _ _ _ (st_text_input_rotulo _ _ _)).
  rewrite (bindF_paso _ _ _ _ _ (st_text_input_rotulo _ _ _)).
  rewrite Hnames. cbn [poblar].
  rewrite (bindF_paso _ _ _ _ _ (eq_refl : retF _ _ = (Continua _, _, []))).
  destruct (valor_entero (w_num_restr v) 1 (num_restr_default v)) as [|n] eqn:En; [lia|].
  assert (Hregs : exists u1 u2 u3,
            registrar (w_param_objetivo v) ∅ = (Continua tt, u1, [])
            /\ registrar (w_tipo v) u1 = (Continua tt, u2, [])
            /\ registrar (w_num_restr v) u2 = (Continua tt, u3, [])).
  { destruct Hv as [-> | ->].
    - by exists ∅, ∅, ∅.
    - eexists _, _, _. cbn [w_param_objetivo w_tipo w_num_restr variante_IP].
      split; [apply registrar_libre; clave_libre|].
      split; apply registrar_libre; clave_libre. }
  destruct Hregs as (u1 & u2 & u3 & Hr1 & Hr2 & Hr3).
  rewrite (bindF_paso _ _ _ _ _ (st_selectbox_paso _ _ _ _ _ (or_introl eq_refl) Hr1)).
  rewrite (bindF_paso _ _ _ _ _
             (st_selectbox_paso _ sentidos 0 _ _ (or_intror (Nat.lt_0_succ 1)) Hr2)).
  rewrite (bindF_paso _ _ _ _ _ (st_number_input_int_paso _ _ _ _ _ Hr3)).
  rewrite En. cbn [seq filas_de]. exists u3.
  erewrite bindF_falla; [done|].
  erewrite bindF_falla; [done|]. apply fila_lineal_sin_parametros.
Qed.

(** X9: a repeated element name (with at least one parameter) or a
    repeated parameter name (with at least one element) ends the pages of
    LP and IP with [DuplicateWidgetID] while the parameter table is built,
    for the key of one of its number inputs, and with nothing shown. *)
Theorem nombres_repetidos (v : variante) (u : gset str) :
  let elementos := parse_lista (valor_texto (Rotulo NombresDeElementos) (elementos_default v)) in
  let param_names := parse_lista (valor_texto (Rotulo NombresDeParametros) (parametros_default v)) in
  (param_names ≠ [] ∧ ¬ NoDup elementos) ∨ (elementos ≠ [] ∧ ¬ NoDup param_names) →
  ∃ pname el u',
    pname ∈ param_names ∧ el ∈ elementos
    ∧ interfaz_lineal v u
       = (Falla (DuplicateWidgetID (prefijo v ++ pname ++ lit "_" ++ el)), u', []).
Proof.
  intros elementos param_names Hrep.
  enough (Hform : exists pname el u',
            pname ∈ param_names /\ el ∈ elementos
            /\ formulario_lineal v u
               = (Falla (DuplicateWidgetID (prefijo v ++ pname ++ lit "_" ++ el)), u', [])).
  { destruct Hform as (pname & el & u1 & Hp & Hel & Hform).
    exists pname, el, u1. split; [done|]. split; [done|].
    unfold interfaz_lineal. by rewrite (bindF_falla _ _ _ _ _ _ Hform). }
  unfold formulario_lineal.
  rewrite (bindF_paso _ _ _ _ _ (st_text_input_rotulo _ _ u)).
  rewrite (bindF_paso _ _ _ _ _ (st_text_input_rotulo _ _ u)).
  fold elementos param_names.
  destruct (poblar_casos v elementos param_names ∅ u)
    as [(parametros & u1 & Hp)|(pname & el & u1 & Hpn & Hel & Hp)].
  - exfalso. apply poblar_continua in Hp as (_ & _ & _ & _ & Hnd_el & Hnd_par).
    destruct Hrep as [[Hne Hdup]|[Hne Hdup]].
    + by apply Hdup, Hnd_el.
    + destruct elementos as [|el resto]; [done|].
      apply Hdup. apply (Hnd_par el). by left.
  - exists pname, el, u1. split; [done|]. split; [done|].
    by rewrite (bindF_falla _ _ _ _ _ _ Hp).
Qed.

(** X10: what the forms of LP and IP hand over when they complete.
    Nothing has been reported; the objective parameter is a declared one
    and the sense is the chosen one; there are as many structured
    constraints as rows asked for, each on a declared parameter and with a
    canonical operator; [validar_parametros] returns [True] without a
    report, so the "Resolver" step is [construir_modelo]. *)
Theorem formulario_lineal_valido (v : variante) (u u' : gset str) (s : solicitud)
    (t : list salida) :
  formulario_lineal v u = (Continua s, u', t) →
  t = []
  ∧ ∃ self param_names,
       s = v_solicitud v self param_names
       ∧ Lineal.elementos self
          = parse_lista (valor_texto (Rotulo NombresDeElementos) (elementos_default v))
       ∧ param_names
          = parse_lista (valor_texto (Rotulo NombresDeParametros) (parametros_default v))
       ∧ Lineal.param_objetivo self ∈ param_names
       ∧ Lineal.tipo_objetivo self = sentido_de_opcion (valor_opcion (w_tipo v) sentidos 0)
       ∧ length (Lineal.restricciones self)
          = valor_entero (w_num_restr v) 1 (num_restr_default v)
       ∧ Forall (fun r => Lineal.parametro r ∈ param_names
                           ∧ Lineal.operador r ∈ canonicos)
            (Lineal.restricciones self)
       ∧ Lineal.validar_parametros self param_names = (Ok true, [])
       ∧ ∀ dominio_x,
            Lineal.resolver dominio_x self param_names
            = Lineal.construir_modelo dominio_x self.
Proof.
  intros Hf.
  destruct (formulario_lineal_continua v u u' s t Hf)
    as (-> & self & names & -> & Hel & Hnames & _ & _ & _ & Hcompletos & Hobj & Htipo
        & Hlen & Hrs).
  split; [done|]. exists self, names.
  pose proof (validar_parametros_completos self names Hcompletos) as Hval.
  repeat (split; [done|]).
  intros d. unfold Lineal.resolver. by rewrite Hval, bind_ret_l.
Qed.

End lineales.

(** The hypotheses of [sin_parametros] hold for the IP page when the text of
    the parameter names has been cleared. *)
Lemma sin_parametros_witness :
  ∃ u',
    interfaz_lineal (H := Pruebas.externos)
      (H0 := SesionDePrueba.sesion
               (fun r => if decide (r = NombresDeParametros) then Some [] else None) [])
      variante_IP ∅
    = (Falla IndexError, u', []).
Proof.
  apply (sin_parametros (H := Pruebas.externos)
           (H0 := SesionDePrueba.sesion
                    (fun r => if decide (r = NombresDeParametros) then Some [] else None) [])
           variante_IP).
  - by right.
  - reflexivity.
Defined.

(** The hypothesis of [nombres_repetidos] holds for the LP page when the
    text of the elements is "a, a". *)
Lemma nombres_repetidos_witness :
  ∃ pname el u',
    interfaz_lineal (H := Pruebas.externos)
      (H0 := SesionDePrueba.sesion
               (fun r => if decide (r = NombresDeElementos) then Some (lit "a, a") else None)
               [])
      variante_LP ∅
    = (Falla (DuplicateWidgetID (prefijo variante_LP ++ pname ++ lit "_" ++ el)), u', []).
Proof.
  destruct (nombres_repetidos (H := Pruebas.externos)
              (H0 := SesionDePrueba.sesion
                       (fun r => if decide (r = NombresDeElementos)
                                 then Some (lit "a, a") else None) [])
              variante_LP ∅)
    as (pname & el & u' & _ & _ & Hi).
  - left. split; apply (bool_decide_unpack _); vm_compute; exact I.
  - by exists pname, el, u'.
Defined.

(** The hypothesis of [formulario_lineal_valido] holds for the LP form as
    it comes up. *)
Lemma formulario_lineal_valido_witness :
  ∃ self param_names,
    resultado_de (formulario_lineal (H := Pruebas.externos) (H0 := SesionDePrueba.inicial)
                    variante_LP ∅)
    = Continua (SolLP self param_names)
    ∧ Lineal.validar_parametros self param_names = (Ok true, []).
Proof.
  destruct (formulario_lineal (H := Pruebas.externos) (H0 := SesionDePrueba.inicial) variante_LP ∅)
    as [[[s|e|] u'] t] eqn:Hf.
  - destruct (formulario_lineal_valido (H := Pruebas.externos) (H0 := SesionDePrueba.inicial)
                variante_LP ∅ u' s t Hf)
      as (_ & self & names & -> & _ & _ & _ & _ & _ & _ & Hval & _).
    by exists self, names.
  - exfalso. vm_compute in Hf. discriminate.
  - exfalso. vm_compute in Hf. discriminate.
Defined.

(** ** The forms of NLP, MILP and MINLP *)

Lemma cifras_inj (d d' : Decimal.uint) : cifras d = cifras d' → d = d'.
Proof.
  revert d'. induction d as [|d IH|d IH|d IH|d IH|d IH|d IH|d IH|d IH|d IH|d IH];
    intros [|d'|d'|d'|d'|d'|d'|d'|d'|d'|d']; cbn [cifras]; intros Hc;
    try discriminate; try done;
    injection Hc as Hc; by rewrite (IH d' Hc).
Qed.

Lemma py_str_inj (i j : nat) : py_str i = py_str j → i = j.
Proof.
  unfold py_str. intros Hc. apply cifras_inj in Hc.
  by rewrite <- (Unsigned.of_to i), <- (Unsigned.of_to j), Hc.
Qed.

(** The first character after the prefix tells the rows' keys apart: it
    is "e", "o" or "v". *)
Lemma es_de_fila_letra (prefijo : str) (i : nat) (key : str) :
  es_de_fila prefijo i key →
  key !! length prefijo = Some 101 ∨ key !! length prefijo = Some 111
  ∨ key !! length prefijo = Some 118.
Proof.
  intros [-> |[-> | ->]]; rewrite lookup_app_r, Nat.sub_diag by done;
    [left|right; left|right; right]; done.
Qed.

Lemma es_de_fila_inj (prefijo : str) (i j : nat) (key : str) :
  es_de_fila prefijo i key → es_de_fila prefijo j key → i = j.
Proof.
  intros [-> |[-> | ->]] [Hk|[Hk|Hk]]; apply app_inv_head in Hk;
    try (apply (f_equal head) in Hk; vm_compute in Hk; discriminate);
    apply app_inv_head in Hk; by apply py_str_inj in Hk.
Qed.

Lemma es_de_fila_distintas (prefijo : str) (i : nat) :
  prefijo ++ lit "expr_" ++ py_str i ≠ prefijo ++ lit "op_" ++ py_str i
  ∧ prefijo ++ lit "expr_" ++ py_str i ≠ prefijo ++ lit "val_" ++ py_str i
  ∧ prefijo ++ lit "op_" ++ py_str i ≠ prefijo ++ lit "val_" ++ py_str i.
Proof.
  repeat split; intros Hk; apply app_inv_head in Hk;
    apply (f_equal head) in Hk; vm_compute in Hk; discriminate.
Qed.

Lemma operadores_simbolos : operadores = simbolos.
Proof. done. Qed.

Lemma index_o_cero_dentro (x : str) (l : list str) :
  l ≠ [] → (index_o_cero x l < length l)%nat.
Proof.
  intros Hne. unfold index_o_cero, py_index.
  destruct (list_find (fun y => y = x) l) as [[i y]|] eqn:E; simpl.
  - apply list_find_Some in E as (Hi & _). by eapply lookup_lt_Some.
  - destruct l; [done|]. simpl. lia.
Qed.

Section expresiones_formulario.
Context `{Externos} `{Sesion}.

(** A row whose three keys are free. *)
Lemma fila_expresion_paso (prefijo def_expr : str) (n : nat) (def_val : float)
    (i : nat) (u : gset str) :
  (n < length operadores)%nat →
  libres prefijo i u →
  ∃ f u',
    fila_expresion prefijo def_expr (retF n) def_val i u = (Continua f, u', [])
    ∧ Lineal.operadores_validos
         !! valor_opcion (Clave (prefijo ++ lit "op_" ++ py_str i)) operadores n
       = Some (e_operador f)
    ∧ e_operador f ∈ canonicos
    ∧ libres prefijo (S i) u'
    ∧ ∀ key, key ∈ u' → key ∈ u ∨ ∃ j, es_de_fila prefijo j key.
Proof.
  intros Hn Hlibres. unfold fila_expresion.
  destruct (es_de_fila_distintas prefijo i) as (Heo & Hev & Hov).
  set (ke := prefijo ++ lit "expr_" ++ py_str i) in *.
  set (ko := prefijo ++ lit "op_" ++ py_str i) in *.
  set (kv := prefijo ++ lit "val_" ++ py_str i) in *.
  assert (Hke : ke ∉ u) by (apply (Hlibres i); [done|by left]).
  assert (Hko : ko ∉ {[ke]} ∪ u).
  { apply not_elem_of_union. split; [by apply not_elem_of_singleton|].
    apply (Hlibres i); [done|right; by left]. }
  assert (Hkv : kv ∉ {[ko]} ∪ ({[ke]} ∪ u)).
  { apply not_elem_of_union. split; [by apply not_elem_of_singleton|].
    apply not_elem_of_union. split; [by apply not_elem_of_singleton|].
    apply (Hlibres i); [done|right; by right]. }
  rewrite (bindF_paso _ _ _ _ _ (st_text_input_paso _ _ _ _ (registrar_libre _ _ Hke))).
  rewrite (bindF_paso _ _ _ _ _ (eq_refl : retF n _ = (Continua n, _, []))).
  rewrite (bindF_paso _ _ _ _ _
             (st_selectbox_paso _ _ _ _ _ (or_intror Hn) (registrar_libre _ _ Hko))).
  rewrite (bindF_paso _ _ _ _ _ (st_number_input_paso _ _ _ _ (registrar_libre _ _ Hkv))).
  pose proof (valor_opcion_ofrecida (Clave ko) operadores n ltac:(done)) as Hop.
  rewrite operadores_simbolos in Hop at 2.
  apply operadores_validos_simbolo in Hop as [c Hc].
  unfold canonico_de at 1. rewrite Hc.
  rewrite (bindF_paso _ _ _ _ _ (eq_refl : retF c _ = (Continua c, _, []))).
  eexists _, _. split; [done|]. cbn [e_operador].
  split; [done|]. split; [by eapply operadores_validos_canonico|]. split.
  - intros j key Hj Hkey Hin.
    assert (Hno : key ∉ u) by (apply (Hlibres j); [lia|done]).
    assert (Hi : es_de_fila prefijo i key).
    { apply elem_of_union in Hin as [Hin|Hin];
        [apply elem_of_singleton in Hin; right; by right|].
      apply elem_of_union in Hin as [Hin|Hin];
        [apply elem_of_singleton in Hin; right; by left|].
      apply elem_of_union in Hin as [Hin|Hin];
        [apply elem_of_singleton in Hin; by left|done]. }
    pose proof (es_de_fila_inj _ _ _ _ Hi Hkey). lia.
  - intros key Hin.
    apply elem_of_union in Hin as [Hin|Hin];
      [apply elem_of_singleton in Hin; right; exists i; right; by right|].
    apply elem_of_union in Hin as [Hin|Hin];
      [apply elem_of_singleton in Hin; right; exists i; right; by left|].
    apply elem_of_union in Hin as [Hin|Hin];
      [apply elem_of_singleton in Hin; right; exists i; by left|by left].
Qed.

(** The loop over the rows, when every row with free keys completes. *)
Lemma filas_de_paso (fila : nat → F fila_expr) (P : fila_expr → Prop) (prefijo : str) :
  (∀ i u, libres prefijo i u →
     ∃ f u', fila i u = (Continua f, u', []) ∧ P f
       ∧ libres prefijo (S i) u'
       ∧ ∀ key, key ∈ u' → key ∈ u ∨ ∃ j, es_de_fila prefijo j key) →
  ∀ n i acc u,
    libres prefijo i u →
    ∃ nuevas u',
      filas_de fila (seq i n) acc u = (Continua (acc ++ nuevas), u', [])
      ∧ length nuevas = n ∧ Forall P nuevas
      ∧ ∀ key, key ∈ u' → key ∈ u ∨ ∃ j, es_de_fila prefijo j key.
Proof.
  intros Hfila. induction n as [|n IH]; intros i acc u Hlibres.
  - exists [], u. rewrite app_nil_r. repeat split; [constructor|by left].
  - cbn [seq filas_de].
    destruct (Hfila i u Hlibres) as (f & u1 & Hf & Pf & Hlibres1 & Hu1).
    rewrite (bindF_paso _ _ _ _ _ Hf).
    destruct (IH (S i) (acc ++ [f]) u1 Hlibres1) as (nuevas & u' & -> & Hlen & Hnuevas & Hu').
    exists (f :: nuevas), u'. rewrite <- app_assoc.
    split; [done|]. split; [simpl; by rewrite Hlen|]. split; [by constructor|].
    intros key Hkey. destruct (Hu' key Hkey) as [Hin|Hj]; [|by right]. by apply Hu1.
Qed.

Lemma eventos_del_modelo (t : list event) : eventos (del_modelo <$> t) = t.
Proof. unfold eventos. induction t as [|ev t IH]; [done|]. cbn. by rewrite IH. Qed.

Lemma eventos_app (t1 t2 : list salida) : eventos (t1 ++ t2) = eventos t1 ++ eventos t2.
Proof. apply omap_app. Qed.

(** The two buttons, when their registration goes through. *)
Lemma botones_valor (s : solicitud) (w_resolver w_salir : widget) (u u1 u2 : gset str) :
  registrar w_resolver u = (Continua tt, u1, []) →
  registrar w_salir u1 = (Continua tt, u2, []) →
  botones s w_resolver w_salir u
  = match (if pulsado w_resolver then resolver s else (Ok tt, [])) with
    | (Ok _, t) =>
        if pulsado w_salir
        then (Detenido, u2, (del_modelo <$> t) ++ [st_write_has_salido (clase s)])
        else (Continua tt, u2, (del_modelo <$> t) ++ [])
    | (Raise e, t) => (Falla (Excepcion e), u1, del_modelo <$> t)
    end.
Proof.
  intros Hr Hs. unfold botones.
  rewrite (bindF_paso _ _ _ _ _ (st_button_paso _ _ _ Hr)).
  assert (Hsalir :
    (let+ salir_pulsado := st_button w_salir in
     if salir_pulsado
     then let+ _ := mostrar_salida (st_write_has_salido (clase s)) in st_stop
     else retF tt) u1
    = if pulsado w_salir then (Detenido, u2, [st_write_has_salido (clase s)])
      else (Continua tt, u2, [])).
  { rewrite (bindF_paso _ _ _ _ _ (st_button_paso _ _ _ Hs)).
    by destruct (pulsado w_salir). }
  destruct (pulsado w_resolver).
  - destruct (resolver s) as [[[]|e] t] eqn:Hres.
    + unfold bindF at 1. cbn [del_nucleo]. rewrite Hsalir.
      by destruct (pulsado w_salir).
    + done.
  - unfold bindF at 1. cbn [retF]. rewrite Hsalir.
    by destruct (pulsado w_salir).
Qed.

Lemma botones_paso (s : solicitud) (w_resolver w_salir : widget) (u u1 u2 : gset str) :
  registrar w_resolver u = (Continua tt, u1, []) →
  registrar w_salir u1 = (Continua tt, u2, []) →
  eventos (mostrado (botones s w_resolver w_salir u))
  = (if pulsado w_resolver then traza (resolver s) else [])
  ∧ resultado_de (botones s w_resolver w_salir u)
     = match (if pulsado w_resolver then final (resolver s) else Ok tt) with
       | Raise e => Falla (Excepcion e)
       | Ok _ => if pulsado w_salir then Detenido else Continua tt
       end.
Proof.
  intros Hr Hs. rewrite (botones_valor s _ _ _ _ _ Hr Hs).
  destruct (pulsado w_resolver).
  - destruct (resolver s) as [[[]|e] t]; cbn [final traza fst snd].
    + destruct (pulsado w_salir); unfold mostrado, resultado_de; cbn [fst snd];
        by rewrite eventos_app, eventos_del_modelo, app_nil_r.
    + unfold mostrado, resultado_de; cbn [fst snd]. by rewrite eventos_del_modelo.
  - by destruct (pulsado w_salir).
Qed.

End expresiones_formulario.

(** Closes [¬ es_de_fila prefijo j key] for a concrete prefix and key. *)
Ltac no_es_de_fila :=
  let Hk := fresh "Hk" in
  intros Hk; apply es_de_fila_letra in Hk; vm_compute in Hk;
  destruct Hk as [Hk|[Hk|Hk]]; discriminate.

Section paginas_de_expresiones.
Context `{Externos} `{Sesion}.

(** The state of the keys when the loop over the rows starts, and what
    follows from it for the two buttons. *)
Lemma libres_inicio (prefijo k1 k2 : str) :
  (∀ j, ¬ es_de_fila prefijo j k1) →
  (∀ j, ¬ es_de_fila prefijo j k2) →
  libres prefijo 0 ({[k2]} ∪ ({[k1]} ∪ ∅)).
Proof.
  intros H1 H2 j key _ Hkey Hin.
  apply elem_of_union in Hin as [Hin|Hin];
    [apply elem_of_singleton in Hin; subst; by apply (H2 j)|].
  apply elem_of_union in Hin as [Hin|Hin];
    [apply elem_of_singleton in Hin; subst; by apply (H1 j)|].
  by apply elem_of_empty in Hin.
Qed.

Lemma botones_libres (prefijo k1 k2 kr ks : str) (u : gset str) :
  (∀ key, key ∈ u →
     key ∈ ({[k2]} ∪ ({[k1]} ∪ ∅) : gset str) ∨ ∃ j, es_de_fila prefijo j key) →
  kr ≠ k1 → kr ≠ k2 → ks ≠ k1 → ks ≠ k2 → ks ≠ kr →
  (∀ j, ¬ es_de_fila prefijo j kr) →
  (∀ j, ¬ es_de_fila prefijo j ks) →
  registrar (Clave kr) u = (Continua tt, {[kr]} ∪ u, [])
  ∧ registrar (Clave ks) ({[kr]} ∪ u) = (Continua tt, {[ks]} ∪ ({[kr]} ∪ u), []).
Proof.
  intros Hu Hr1 Hr2 Hs1 Hs2 Hsr Hr Hs.
  assert (Haj : forall k, k <> k1 -> k <> k2 -> (forall j, ¬ es_de_fila prefijo j k) -> k ∉ u).
  { intros k Hk1 Hk2 Hk Hin. destruct (Hu k Hin) as [Hin'|[j Hj]]; [|by apply (Hk j)].
    apply elem_of_union in Hin' as [Hin'|Hin'];
      [by apply elem_of_singleton in Hin'|].
    apply elem_of_union in Hin' as [Hin'|Hin'];
      [by apply elem_of_singleton in Hin'|].
    by apply elem_of_empty in Hin'. }
  split; apply registrar_libre; [by apply Haj|].
  apply not_elem_of_union. split; [by apply not_elem_of_singleton|by apply Haj].
Qed.

Lemma fila_NLP_paso (i : nat) (u : gset str) :
  libres (lit "nlp_") i u →
  ∃ f u',
    fila_NLP i u = (Continua f, u', [])
    ∧ e_operador f ∈ canonicos
    ∧ libres (lit "nlp_") (S i) u'
    ∧ ∀ key, key ∈ u' → key ∈ u ∨ ∃ j, es_de_fila (lit "nlp_") j key.
Proof.
  intros Hl. unfold fila_NLP.
  destruct (fila_expresion_paso (lit "nlp_") (lit "x1**2 + 1.5*x2**2") 0 500%float i u)
    as (f & u' & Hf & _ & Hc & Hl' & Hu'); [simpl; lia|done|].
  by exists f, u'.
Qed.

(** In the MILP form the index handed to the select box of the operator
    is 0 in every row: the preloaded operators are written in canonical
    form, which is not in [operadores]. *)
Lemma fila_MILP_paso (i : nat) (u : gset str) :
  libres (lit "milp_") i u →
  ∃ f u',
    fila_MILP i u = (Continua f, u', [])
    ∧ (e_operador f ∈ canonicos
        ∧ ∃ j, Lineal.operadores_validos
                       !! valor_opcion (Clave (lit "milp_" ++ lit "op_" ++ py_str j)) operadores 0
                     = Some (e_operador f))
    ∧ libres (lit "milp_") (S i) u'
    ∧ ∀ key, key ∈ u' → key ∈ u ∨ ∃ j, es_de_fila (lit "milp_") j key.
Proof.
  intros Hl. unfold fila_MILP.
  assert (Hcero : exists def_op,
    (match restricciones_default_MILP !! i with
     | Some (_, op, _) => retF op
     | None => indexar operadores 0
     end) u = (Continua def_op, u, [])
    /\ index_o_cero def_op operadores = 0%nat).
  { do 5 (destruct i as [|i]; [by eexists|]). by eexists. }
  destruct Hcero as (def_op & Hdef & Hcero).
  rewrite (bindF_paso _ _ _ _ _ Hdef), Hcero.
  match goal with
  | |- context [fila_expresion ?p ?e _ ?x i u] =>
      destruct (fila_expresion_paso p e 0 x i u)
        as (f & u' & Hf & Hop & Hc & Hl' & Hu'); [simpl; lia|done|]
  end.
  exists f, u'. split; [done|]. split; [|done]. split; [done|]. by exists i.
Qed.

Lemma fila_MINLP_paso (i : nat) (u : gset str) :
  libres (lit "minlp_") i u →
  ∃ f u',
    fila_MINLP i u = (Continua f, u', [])
    ∧ e_operador f ∈ canonicos
    ∧ libres (lit "minlp_") (S i) u'
    ∧ ∀ key, key ∈ u' → key ∈ u ∨ ∃ j, es_de_fila (lit "minlp_") j key.
Proof.
  intros Hl. unfold fila_MINLP.
  assert (Hidx : exists n,
    py_index (default ([], menor_o_igual, 0%float) (valores_defecto !! i)).1.2 operadores
    = Some n /\ (n < length operadores)%nat).
  { do 5 (destruct i as [|i]; [eexists; split; [reflexivity|simpl; lia]|]).
    eexists; split; [reflexivity|simpl; lia]. }
  destruct Hidx as (n & Hidx & Hn).
  destruct (default ([], menor_o_igual, 0%float) (valores_defecto !! i))
    as [[expr_default op_default] val_default].
  cbn [fst snd] in Hidx. rewrite Hidx.
  destruct (fila_expresion_paso (lit "minlp_") expr_default n val_default i u)
    as (f & u' & Hf & _ & Hc & Hl' & Hu'); [done..|].
  by exists f, u'.
Qed.

Lemma formulario_NLP_paso :
  ∃ s u',
    formulario_NLP ∅ = (Continua s, u', [])
    ∧ solicitud_de_expresiones s cNLP
         (valor_opcion (Clave (lit "nlp_tipo")) sentidos 0)
         (valor_entero (Clave (lit "nlp_num_restr")) 0 1)
    ∧ registrar (Clave (lit "nlp_resolver")) u'
       = (Continua tt, {[lit "nlp_resolver"]} ∪ u', [])
    ∧ registrar (Clave (lit "nlp_salir")) ({[lit "nlp_resolver"]} ∪ u')
       = (Continua tt, {[lit "nlp_salir"]} ∪ ({[lit "nlp_resolver"]} ∪ u'), []).
Proof.
  unfold formulario_NLP.
  rewrite (bindF_paso _ _ _ _ _ (st_text_input_rotulo _ _ _)).
  rewrite (bindF_paso _ _ _ _ _ (st_text_input_rotulo _ _ _)).
  rewrite (bindF_paso _ _ _ _ _
             (st_selectbox_paso _ sentidos 0 _ _ (or_intror (Nat.lt_0_succ 1))
                (registrar_libre (lit "nlp_tipo") ∅ ltac:(clave_libre)))).
  rewrite (bindF_paso _ _ _ _ _
             (st_number_input_int_paso _ _ _ _ _
                (registrar_libre (lit "nlp_num_restr") ({[lit "nlp_tipo"]} ∪ ∅)
                   ltac:(clave_libre)))).
  destruct (filas_de_paso fila_NLP (fun f => e_operador f ∈ canonicos) (lit "nlp_")
              fila_NLP_paso (valor_entero (Clave (lit "nlp_num_restr")) 0 1) 0 []
              ({[lit "nlp_num_restr"]} ∪ ({[lit "nlp_tipo"]} ∪ ∅)))
    as (nuevas & u' & Hfilas & Hlen & Hnuevas & Hu').
  { apply libres_inicio; intros j; no_es_de_fila. }
  rewrite (bindF_paso _ _ _ _ _ Hfilas). cbn [app].
  eexists _, u'. split; [done|]. split; [by repeat split|].
  eapply botones_libres; [exact Hu'|try done..]; intros j; no_es_de_fila.
Qed.

Lemma formulario_MILP_paso :
  ∃ s u',
    formulario_MILP ∅ = (Continua s, u', [])
    ∧ solicitud_de_expresiones s cMILP
         (valor_opcion (Clave (lit "milp_tipo")) sentidos 0)
         (valor_entero (Clave (lit "milp_num_restr")) 0 (length restricciones_default_MILP))
    ∧ Forall (fun f => ∃ j,
                 Lineal.operadores_validos
                   !! valor_opcion (Clave (lit "milp_" ++ lit "op_" ++ py_str j)) operadores 0
                 = Some (e_operador f)) (restricciones_de s)
    ∧ registrar (Clave (lit "milp_resolver")) u'
       = (Continua tt, {[lit "milp_resolver"]} ∪ u', [])
    ∧ registrar (Clave (lit "milp_salir")) ({[lit "milp_resolver"]} ∪ u')
       = (Continua tt, {[lit "milp_salir"]} ∪ ({[lit "milp_resolver"]} ∪ u'), []).
Proof.
  unfold formulario_MILP.
  rewrite (bindF_paso _ _ _ _ _ (st_text_input_rotulo _ _ _)).
  rewrite (bindF_paso _ _ _ _ _ (st_text_input_rotulo _ _ _)).
  rewrite (bindF_paso _ _ _ _ _ (st_text_input_rotulo _ _ _)).
  rewrite (bindF_paso _ _ _ _ _
             (st_selectbox_paso _ sentidos 0 _ _ (or_intror (Nat.lt_0_succ 1))
                (registrar_libre (lit "milp_tipo") ∅ ltac:(clave_libre)))).
  rewrite (bindF_paso _ _ _ _ _
             (st_number_input_int_paso _ _ _ _ _
                (registrar_libre (lit "milp_num_restr") ({[lit "milp_tipo"]} ∪ ∅)
                   ltac:(clave_libre)))).
  destruct (filas_de_paso fila_MILP _ (lit "milp_") fila_MILP_paso
              (valor_entero (Clave (lit "milp_num_restr")) 0 (length restricciones_default_MILP))
              0 [] ({[lit "milp_num_restr"]} ∪ ({[lit "milp_tipo"]} ∪ ∅)))
    as (nuevas & u' & Hfilas & Hlen & Hnuevas & Hu').
  { apply libres_inicio; intros j; no_es_de_fila. }
  rewrite (bindF_paso _ _ _ _ _ Hfilas). cbn [app].
  eexists _, u'. split; [done|]. split.
  { split; [done|]. split; [done|]. split; [done|].
    cbn [restricciones_de mx_restricciones].
    eapply Forall_impl; [exact Hnuevas|]. by intros f [Hf _]. }
  split.
  { cbn [restricciones_de mx_restricciones].
    eapply Forall_impl; [exact Hnuevas|]. by intros f [_ Hf]. }
  eapply botones_libres; [exact Hu'|try done..]; intros j; no_es_de_fila.
Qed.

Lemma formulario_MINLP_paso :
  ∃ s u',
    formulario_MINLP ∅ = (Continua s, u', [])
    ∧ solicitud_de_expresiones s cMINLP
         (valor_opcion (Clave (lit "minlp_tipo")) sentidos 0)
         (valor_entero (Clave (lit "minlp_num_restr")) 0 5)
    ∧ registrar (Clave (lit "minlp_resolver")) u'
       = (Continua tt, {[lit "minlp_resolver"]} ∪ u', [])
    ∧ registrar (Clave (lit "minlp_salir")) ({[lit "minlp_resolver"]} ∪ u')
       = (Continua tt, {[lit "minlp_salir"]} ∪ ({[lit "minlp_resolver"]} ∪ u'), []).
Proof.
  unfold formulario_MINLP.
  rewrite (bindF_paso _ _ _ _ _ (st_text_input_rotulo _ _ _)).
  rewrite (bindF_paso _ _ _ _ _ (st_text_input_rotulo _ _ _)).
  rewrite (bindF_paso _ _ _ _ _ (st_text_input_rotulo _ _ _)).
  rewrite (bindF_paso _ _ _ _ _
             (st_selectbox_paso _ sentidos 0 _ _ (or_intror (Nat.lt_0_succ 1))
                (registrar_libre (lit "minlp_tipo") ∅ ltac:(clave_libre)))).
  rewrite (bindF_paso _ _ _ _ _
             (st_number_input_int_paso _ _ _ _ _
                (registrar_libre (lit "minlp_num_restr") ({[lit "minlp_tipo"]} ∪ ∅)
                   ltac:(clave_libre)))).
  destruct (filas_de_paso fila_MINLP (fun f => e_operador f ∈ canonicos) (lit "minlp_")
              fila_MINLP_paso (valor_entero (Clave (lit "minlp_num_restr")) 0 5) 0 []
              ({[lit "minlp_num_restr"]} ∪ ({[lit "minlp_tipo"]} ∪ ∅)))
    as (nuevas & u' & Hfilas & Hlen & Hnuevas & Hu').
  { apply libres_inicio; intros j; no_es_de_fila. }
  rewrite (bindF_paso _ _ _ _ _ Hfilas). cbn [app].
  eexists _, u'. split; [done|]. split.
  { split; [done|]. split; [|by split].
    cbn [sentido_de mx_tipo_objetivo]. unfold sentido_de_opcion.
    pose proof (valor_opcion_ofrecida (Clave (lit "minlp_tipo")) sentidos 0 ltac:(done)) as Hs.
    apply elem_of_cons in Hs as [->|Hs]; [done|].
    apply list_elem_of_singleton in Hs as ->. done. }
  eapply botones_libres; [exact Hu'|try done..]; intros j; no_es_de_fila.
Qed.

Lemma pagina_paso (formulario : F solicitud) (w_resolver w_salir : widget)
    (s : solicitud) (u u1 u2 : gset str) :
  formulario ∅ = (Continua s, u, []) →
  registrar w_resolver u = (Continua tt, u1, []) →
  registrar w_salir u1 = (Continua tt, u2, []) →
  let pagina := bindF formulario (fun s => botones s w_resolver w_salir) in
  eventos (mostrado (pagina ∅))
  = (if pulsado w_resolver then traza (resolver s) else [])
  ∧ resultado_de (pagina ∅) = desenlace_de_pagina s w_resolver w_salir.
Proof.
  intros Hf Hr Hs. cbn zeta. rewrite (bindF_paso _ _ _ _ _ Hf).
  apply (botones_paso s _ _ _ _ _ Hr Hs).
Qed.

(** X11: the forms of NLP, MILP and MINLP cannot fail: whatever the session
    holds, the keys of their widgets are pairwise distinct for any number
    of rows, the indices of the select boxes are in range and the chosen
    operator is a key of the dict literal.  They hand over the chosen
    sense and as many rows as asked for, each with a canonical operator;
    the page shows the events of [construir_modelo] if "Resolver" is
    pressed, and ends with its exception, at [st.stop()] if "Salir" is
    pressed, or at the end of the script. *)
Theorem paginas_de_expresiones :
  pagina_completa formulario_NLP interfaz_NLP cNLP
    (Clave (lit "nlp_tipo")) (Clave (lit "nlp_num_restr"))
    (Clave (lit "nlp_resolver")) (Clave (lit "nlp_salir")) 1
  ∧ pagina_completa formulario_MILP interfaz_MILP cMILP
       (Clave (lit "milp_tipo")) (Clave (lit "milp_num_restr"))
       (Clave (lit "milp_resolver")) (Clave (lit "milp_salir"))
       (length restricciones_default_MILP)
  ∧ pagina_completa formulario_MINLP interfaz_MINLP cMINLP
       (Clave (lit "minlp_tipo")) (Clave (lit "minlp_num_restr"))
       (Clave (lit "minlp_resolver")) (Clave (lit "minlp_salir")) 5.
Proof.
  split; [|split].
  - destruct formulario_NLP_paso as (s & u' & Hf & Hs & Hr1 & Hr2).
    exists s. rewrite Hf. split; [done|]. split; [done|]. split; [done|].
    apply (pagina_paso formulario_NLP _ _ s _ _ _ Hf Hr1 Hr2).
  - destruct formulario_MILP_paso as (s & u' & Hf & Hs & _ & Hr1 & Hr2).
    exists s. rewrite Hf. split; [done|]. split; [done|]. split; [done|].
    apply (pagina_paso formulario_MILP _ _ s _ _ _ Hf Hr1 Hr2).
  - destruct formulario_MINLP_paso as (s & u' & Hf & Hs & Hr1 & Hr2).
    exists s. rewrite Hf. split; [done|]. split; [done|]. split; [done|].
    apply (pagina_paso formulario_MINLP _ _ s _ _ _ Hf Hr1 Hr2).
Qed.

(** X12: the operators preloaded in the MILP form are written in canonical
    form, which the list of symbols does not contain, so the select box of
    every row comes up on its first option: as long as the operator select
    boxes are left as they come up, every row is handed over with "<=",
    also the three rows preloaded with ">=". *)
Theorem operadores_por_defecto_MILP :
  (∀ w index x, operadores !! index = Some x → valor_opcion w operadores index = x) →
  ((fun fila => fila.1.2) <$> restricciones_default_MILP)
  = [lit "<="; lit ">="; lit ">="; lit ">="; lit "<="]
  ∧ ∃ s,
       resultado_de (formulario_MILP ∅) = Continua s
       ∧ Forall (fun r => e_operador r = lit "<=") (restricciones_de s).
Proof.
  intros Hinicial. split; [done|].
  destruct formulario_MILP_paso as (s & u' & Hf & _ & Hops & _).
  exists s. rewrite Hf. split; [done|].
  eapply Forall_impl; [exact Hops|]. intros f [j Hj].
  rewrite (Hinicial _ 0%nat menor_o_igual eq_refl) in Hj.
  by injection Hj as <-.
Qed.

End paginas_de_expresiones.

(** The hypothesis of [operadores_por_defecto_MILP] holds for the session
    in which every widget is as it comes up. *)
Lemma operadores_por_defecto_MILP_witness :
  ∃ s,
    resultado_de (formulario_MILP (H0 := SesionDePrueba.inicial) ∅) = Continua s
    ∧ Forall (fun r => e_operador r = lit "<=") (restricciones_de s).
Proof.
  apply (operadores_por_defecto_MILP (H0 := SesionDePrueba.inicial)).
  intros w index x Hx. cbn [valor_opcion SesionDePrueba.inicial SesionDePrueba.sesion].
  unfold SesionDePrueba.opcion_inicial. by rewrite Hx.
Defined.

(** ** Backend calls of a run of the script *)

Lemma llamadas_app (t1 t2 : list event) : llamadas (t1 ++ t2) = llamadas t1 ++ llamadas t2.
Proof. apply omap_app. Qed.

Lemma llamadas_de_bind {A B} (m : F A) (k : A → F B) (u : gset str) :
  llamadas_de (bindF m k u)
  = llamadas_de (m u)
    ++ match m u with
       | (Continua a, u1, _) => llamadas_de (k a u1)
       | _ => []
       end.
Proof.
  unfold llamadas_de, mostrado, bindF.
  destruct (m u) as [[[a|e|] u1] t1]; cbn [snd]; [|by rewrite app_nil_r..].
  destruct (k a u1) as [[r u2] t2]. cbn [snd].
  by rewrite eventos_app, llamadas_app.
Qed.

Lemma sin_llamadas_bind {A B} (m : F A) (k : A → F B) :
  sin_llamadas m → (∀ a, sin_llamadas (k a)) → sin_llamadas (bindF m k).
Proof.
  intros Hm Hk u. rewrite llamadas_de_bind, (Hm u).
  destruct (m u) as [[[a|e|] u1] t1]; [apply Hk|done..].
Qed.

Lemma sin_llamadas_calla {A} (m : F A) :
  (∀ u, mostrado (m u) = []) → sin_llamadas m.
Proof. intros Hm u. unfold llamadas_de. by rewrite Hm. Qed.

Lemma sin_llamadas_registrar (w : widget) : sin_llamadas (registrar w).
Proof.
  apply sin_llamadas_calla. intros u. unfold registrar.
  destruct w; [by case_bool_decide|done].
Qed.

Section corrida.
Context `{Externos} `{Sesion}.

Lemma sin_llamadas_text_input (w : widget) (value : str) :
  sin_llamadas (st_text_input w value).
Proof. apply sin_llamadas_bind; [apply sin_llamadas_registrar|done]. Qed.

Lemma sin_llamadas_number_input (w : widget) (value : float) :
  sin_llamadas (st_number_input w value).
Proof. apply sin_llamadas_bind; [apply sin_llamadas_registrar|done]. Qed.

Lemma sin_llamadas_number_input_int (w : widget) (min_value value : nat) :
  sin_llamadas (st_number_input_int w min_value value).
Proof. apply sin_llamadas_bind; [apply sin_llamadas_registrar|done]. Qed.

Lemma sin_llamadas_selectbox (w : widget) (options : list str) (index : nat) :
  sin_llamadas (st_selectbox w options index).
Proof.
  unfold st_selectbox. case_bool_decide; [done|].
  apply sin_llamadas_bind; [apply sin_llamadas_registrar|done].
Qed.

Lemma sin_llamadas_button (w : widget) : sin_llamadas (st_button w).
Proof. apply sin_llamadas_bind; [apply sin_llamadas_registrar|done]. Qed.

Lemma sin_llamadas_indexar {A} (l : list A) (i : nat) : sin_llamadas (indexar l i).
Proof. unfold indexar. by destruct (l !! i). Qed.

Lemma sin_llamadas_filas_de {A} (fila : nat → F A) :
  (∀ idx, sin_llamadas (fila idx)) →
  ∀ indices acc, sin_llamadas (filas_de fila indices acc).
Proof.
  intros Hfila. induction indices as [|idx resto IH]; intros acc; [done|].
  cbn [filas_de]. apply sin_llamadas_bind; [apply Hfila|]. intros f. apply IH.
Qed.

Lemma sin_llamadas_poblar_elementos (v : variante) (pname : str) (elementos : list str) :
  ∀ valores, sin_llamadas (poblar_elementos v pname elementos valores).
Proof.
  induction elementos as [|el resto IH]; intros valores; [done|].
  cbn [poblar_elementos].
  apply sin_llamadas_bind; [apply sin_llamadas_number_input|]. intros val. apply IH.
Qed.

Lemma sin_llamadas_poblar (v : variante) (elementos param_names : list str) :
  ∀ parametros, sin_llamadas (poblar v elementos param_names parametros).
Proof.
  induction param_names as [|pname resto IH]; intros parametros; [done|].
  cbn [poblar].
  apply sin_llamadas_bind; [apply sin_llamadas_poblar_elementos|]. intros val. apply IH.
Qed.

Lemma sin_llamadas_fila_lineal (v : variante) (param_names : list str) (idx : nat) :
  sin_llamadas (fila_lineal v param_names idx).
Proof.
  unfold fila_lineal. apply sin_llamadas_bind.
  { destruct (restricciones_default v !! idx) as [[[p op] x]|];
      [case_bool_decide; [done|]|]; apply sin_llamadas_indexar. }
  intros def_param. apply sin_llamadas_bind.
  { destruct (restricciones_default v !! idx) as [[[p op] x]|];
      [done|apply sin_llamadas_indexar]. }
  intros def_op.
  apply sin_llamadas_bind; [apply sin_llamadas_selectbox|]. intros parametro.
  apply sin_llamadas_bind; [apply sin_llamadas_selectbox|]. intros operador.
  apply sin_llamadas_bind; [apply sin_llamadas_number_input|]. done.
Qed.

Lemma sin_llamadas_formulario_lineal (v : variante) : sin_llamadas (formulario_lineal v).
Proof.
  unfold formulario_lineal.
  apply sin_llamadas_bind; [apply sin_llamadas_text_input|]. intros elementos_input.
  apply sin_llamadas_bind; [apply sin_llamadas_text_input|]. intros parametros_input.
  apply sin_llamadas_bind; [apply sin_llamadas_poblar|]. intros parametros.
  apply sin_llamadas_bind; [apply sin_llamadas_selectbox|]. intros param_objetivo.
  apply sin_llamadas_bind; [apply sin_llamadas_selectbox|]. intros objetivo_input.
  apply sin_llamadas_bind; [apply sin_llamadas_number_input_int|]. intros num_restr.
  apply sin_llamadas_bind;
    [apply sin_llamadas_filas_de; intros idx; apply sin_llamadas_fila_lineal|].
  intros restricciones_input.
  apply sin_llamadas_bind; [|done].
  intros u. unfold Lineal.parse_restricciones. rewrite parse_bucle_spec.
  unfold llamadas_de, mostrado, del_nucleo. cbn [snd].
  rewrite eventos_del_modelo.
  induction (diagnosticos _ _ _) as [|m ms IH]; [done|]. exact IH.
Qed.

(** The calls of the two buttons are those of the solve request, if any. *)
Lemma botones_llamadas (s : solicitud) (w_resolver w_salir : widget) (u : gset str) :
  llamadas_de (botones s w_resolver w_salir u) = []
  ∨ llamadas_de (botones s w_resolver w_salir u) = llamadas (traza (resolver s)).
Proof.
  unfold botones. rewrite llamadas_de_bind, (sin_llamadas_button w_resolver u).
  destruct (st_button w_resolver u) as [[[b|e|] u1] t1]; [|by left..].
  cbn [app]. rewrite llamadas_de_bind.
  assert (Hsalir : forall u2, llamadas_de
            ((let+ salir_pulsado := st_button w_salir in
              if salir_pulsado
              then let+ _ := mostrar_salida (st_write_has_salido (clase s)) in st_stop
              else retF tt) u2) = []).
  { apply sin_llamadas_bind; [apply sin_llamadas_button|]. by intros []. }
  destruct b.
  - right. unfold del_nucleo. destruct (resolver s) as [[[]|e] t] eqn:Hres;
      unfold llamadas_de at 1; unfold mostrado; cbn [snd traza];
      rewrite eventos_del_modelo; [by rewrite Hsalir, app_nil_r|by rewrite app_nil_r].
  - left. cbn [retF]. by rewrite Hsalir.
Qed.

(** A page makes at most one call, to the backend of the class of its
    form. *)
Lemma pagina_llamadas (c : ProblemClass) (formulario : F solicitud)
    (w_resolver w_salir : widget) (u : gset str) :
  llamadas_de (formulario u) = [] →
  (∀ s u' t, formulario u = (Continua s, u', t) → clase s = c) →
  let pagina := bindF formulario (fun s => botones s w_resolver w_salir) in
  llamadas_de (pagina u) = []
  ∨ ∃ m, llamadas_de (pagina u) = [(backend c, m)].
Proof.
  intros Hsin Hclase. cbn zeta. rewrite llamadas_de_bind, Hsin.
  destruct (formulario u) as [[[s|e|] u1] t1] eqn:Hf; [|by left..].
  cbn [app]. pose proof (Hclase _ _ _ eq_refl) as <-.
  destruct (botones_llamadas s w_resolver w_salir u1) as [-> | ->]; [by left|].
  destruct (forma_llamadas s _ (resolver_forma s)) as [->|(m & _ & -> & _)];
    [by left|right; by exists m].
Qed.

Lemma clase_formulario_lineal (v : variante) (c : ProblemClass) :
  (∀ self names, clase (v_solicitud v self names) = c) →
  ∀ u s u' t, formulario_lineal v u = (Continua s, u', t) → clase s = c.
Proof.
  intros Hc u s u' t Hf.
  destruct (formulario_lineal_continua v u u' s t Hf) as (_ & self & names & -> & _).
  apply Hc.
Qed.

(** X13: a run of the script makes at most one backend call, and makes it
    to the backend of the class chosen in the menu; with "Ninguno" chosen
    the run shows nothing and ends normally. *)
Theorem una_llamada_por_corrida :
  (llamadas_de (interfaz_de_usuario ∅) = []
   ∨ ∃ c m,
        valor_opcion (Rotulo TipoDeProblema) opciones 0 = etiqueta c
        ∧ llamadas_de (interfaz_de_usuario ∅) = [(backend c, m)])
  ∧ (valor_opcion (Rotulo TipoDeProblema) opciones 0 = lit "Ninguno" →
      interfaz_de_usuario ∅ = (Continua tt, ∅, [])).
Proof.
  unfold interfaz_de_usuario.
  assert (Hmenu : st_selectbox (Rotulo TipoDeProblema) opciones 0 ∅
                  = (Continua (valor_opcion (Rotulo TipoDeProblema) opciones 0), ∅, [])).
  { apply st_selectbox_paso; [right; simpl; lia|done]. }
  rewrite (bindF_paso _ _ _ _ _ Hmenu).
  set (elegida := valor_opcion (Rotulo TipoDeProblema) opciones 0).
  split.
  - assert (Hexpr : forall c formulario w_resolver w_salir,
      (exists s u', formulario ∅ = (Continua s, u', []) /\ clase s = c) ->
      llamadas_de ((let+ s := formulario in botones s w_resolver w_salir) ∅) = []
      \/ exists m, llamadas_de ((let+ s := formulario in botones s w_resolver w_salir) ∅)
                   = [(backend c, m)]).
    { intros c formulario wr ws (s & u' & Hf & Hc).
      apply (pagina_llamadas c formulario wr ws ∅).
      - by rewrite Hf.
      - intros s' u'' t' Hf'. rewrite Hf in Hf'. by injection Hf' as <- _ _. }
    repeat case_bool_decide.
    + destruct (pagina_llamadas cLP (formulario_lineal variante_LP)
                  (w_resolver variante_LP) (w_salir variante_LP) ∅) as [Hn|[m Hm]];
        [apply sin_llamadas_formulario_lineal|by apply clase_formulario_lineal
        |by left|right; by exists cLP, m].
    + destruct (pagina_llamadas cIP (formulario_lineal variante_IP)
                  (w_resolver variante_IP) (w_salir variante_IP) ∅) as [Hn|[m Hm]];
        [apply sin_llamadas_formulario_lineal|by apply clase_formulario_lineal
        |by left|right; by exists cIP, m].
    + destruct (Hexpr cNLP formulario_NLP (Clave (lit "nlp_resolver"))
                  (Clave (lit "nlp_salir"))) as [Hn|[m Hm]];
        [|by left|right; by exists cNLP, m].
      destruct formulario_NLP_paso as (s & u' & Hf & (Hc & _) & _). by exists s, u'.
    + destruct (Hexpr cMILP formulario_MILP (Clave (lit "milp_resolver"))
                  (Clave (lit "milp_salir"))) as [Hn|[m Hm]];
        [|by left|right; by exists cMILP, m].
      destruct formulario_MILP_paso as (s & u' & Hf & (Hc & _) & _). by exists s, u'.
    + destruct (Hexpr cMINLP formulario_MINLP (Clave (lit "minlp_resolver"))
                  (Clave (lit "minlp_salir"))) as [Hn|[m Hm]];
        [|by left|right; by exists cMINLP, m].
      destruct formulario_MINLP_paso as (s & u' & Hf & (Hc & _) & _). by exists s, u'.
    + by left.
  - intros Hninguno. rewrite Hninguno.
    by repeat (rewrite bool_decide_false by (by vm_compute)).
Qed.

End corrida.
